(** * SaveSoroswapPairsToSQLite: the consumer of [main.go], embedded and verified

    The consumer receives one JSON event at a time, decodes its [type]
    discriminator and applies it to the table [soroswap_pairs] inside one
    transaction.  The embedding follows [main.go] function by function:

    - the table is the list of its rows, in insertion order; the primary key
      and the CHECK constraints of the schema are enforced by the statements
      that write to it, not by the representation;
    - [database/sql] calls are steps of an error monad; each step may be made
      to fail by the caller of the model ([Faults]), which is how an expired
      deadline, a cancelled context or an I/O error shows up in the handlers;
    - a transaction works on a copy of the rows which replaces the table on
      [Commit] only; every other way out of a handler is the deferred
      [Rollback];
    - a nil [*sql.DB] dereferenced by a handler is the outcome [Panic];
    - [encoding/json] is outside the repository: the three [json.Unmarshal]
      calls of [Process] are the operations of the class [JsonDecoder], and
      what is proved of [Process] holds for every decoder;
    - the context handed to [Process] is taken to be non-nil; its deadline
      and cancellation reach the handlers as failing storage calls;
    - the lines written with [log.Printf] are not part of the state. *)

From Stdlib Require Import ZArith Lia.
From Stdlib Require Import Strings.Byte.
From stdpp Require Import base option list strings gmap.

Local Open Scope string_scope.
Local Open Scope list_scope.

(** ** Values of the host language *)

(** [time.Time]: an instant with nanoseconds and the offset of its zone. *)
Record Time : Type := mkTime {
  unix_sec : Z;
  nsec : Z;
  zone_offset : Z
}.

(** The zero value of [time.Time], January 1 of year 1, 00:00:00 UTC. *)
Definition zero_time : Time := mkTime (-62135596800)%Z 0%Z 0%Z.

#[global] Instance Time_eq_dec : EqDecision Time.
Proof. solve_decision. Defined.

(** A value held by an [interface{}]: the payload of a message and the
    values of the configuration map. *)
Inductive GoValue : Type :=
| VNil
| VBytes (data : list byte)
| VString (str : string)
| VInt (i : Z)
| VFloat64 (mantissa : Z) (exponent : Z)
| VBool (b : bool)
| VMap (keys : list string).

(** What [%T] prints for the value. *)
Definition go_type_name (v : GoValue) : string :=
  match v with
  | VNil => "<nil>"
  | VBytes _ => "[]uint8"
  | VString _ => "string"
  | VInt _ => "int"
  | VFloat64 _ _ => "float64"
  | VBool _ => "bool"
  | VMap _ => "map[string]interface {}"
  end.

(** [v.(string)] with the comma-ok form: no panic, the zero value on failure. *)
Definition assert_string (v : option GoValue) : string * bool :=
  match v with
  | Some (VString p) => (p, true)
  | _ => ("", false)
  end.

(** [msg.Payload.([]byte)] with the comma-ok form. *)
Definition assert_bytes (v : GoValue) : list byte * bool :=
  match v with
  | VBytes b => (b, true)
  | _ => ([], false)
  end.

(** [pluginapi.Message], of which [Process] reads the payload only. *)
Record Message : Type := mkMessage { Payload : GoValue }.

(** ** Events *)

Module NewPairEvent.
Record t : Type := mk {
  Type_ : string;
  PairAddress : string;
  Token0 : string;
  Token1 : string;
  Timestamp : Time
}.
End NewPairEvent.

Module SyncEvent.
Record t : Type := mk {
  Type_ : string;
  ContractID : string;
  NewReserve0 : string;
  NewReserve1 : string;
  Timestamp : Time;
  LedgerSequence : Z
}.
End SyncEvent.

(** ** The table [soroswap_pairs] *)

(** One row; the two nullable columns are options. *)
Record Pair : Type := mkPair {
  pair_address : string;
  token_0 : string;
  token_1 : string;
  reserve_0 : string;
  reserve_1 : string;
  created_at : Time;
  last_sync_at : option Time;
  last_sync_ledger : option Z
}.

#[global] Instance Pair_eq_dec : EqDecision Pair.
Proof. solve_decision. Defined.

Abbreviation Table := (list Pair).

(** ** Errors and outcomes *)

(** An error reported by [database/sql] or the driver. *)
Inductive SqlError : Type :=
| SqlClosed          (* sql: database is closed *)
| SqlConstraint      (* CHECK constraint failed *)
| SqlDriver.         (* deadline exceeded, context cancelled, I/O error *)

Definition JsonError : Type := string.

(** The errors the consumer returns, one constructor per [fmt.Errorf] (and
    one for the error of [tx.Commit] and of [db.Close], returned as they are). *)
Inductive Error : Type :=
| ErrPayloadType (got : string)
| ErrDecodeType (err : JsonError)
| ErrDecodeNewPair (err : JsonError)
| ErrDecodeSync (err : JsonError)
| ErrUnknownType (ty : string)
| ErrInvalidNewPair
| ErrBeginTx (err : SqlError)
| ErrPrepare (err : SqlError)
| ErrInsertPair (err : SqlError)
| ErrRowsAffected (err : SqlError)
| ErrCheckExistence (err : SqlError)
| ErrUpdateReserves (err : SqlError)
| ErrCommit (err : SqlError)
| ErrOpen (err : SqlError)
| ErrPing (err : SqlError)
| ErrPragmas (err : SqlError)
| ErrCreateTable (err : SqlError)
| ErrClose (err : SqlError).

(** The prefix of the message of each error, as [main.go] formats it. *)
Definition error_message (e : Error) : string :=
  match e with
  | ErrPayloadType got => "expected []byte, got " +:+ got
  | ErrDecodeType _ => "error decoding event type: "
  | ErrDecodeNewPair _ => "error decoding new pair event: "
  | ErrDecodeSync _ => "error decoding sync event: "
  | ErrUnknownType ty => "unknown event type: " +:+ ty
  | ErrInvalidNewPair => "invalid new pair event data: missing required fields"
  | ErrBeginTx _ => "failed to begin transaction: "
  | ErrPrepare _ => "failed to prepare statement: "
  | ErrInsertPair _ => "failed to insert pair: "
  | ErrRowsAffected _ => "failed to get rows affected: "
  | ErrCheckExistence _ => "failed to check pair existence: "
  | ErrUpdateReserves _ => "failed to update pair reserves: "
  | ErrCommit _ => ""
  | ErrOpen _ => "failed to open SQLite: "
  | ErrPing _ => "failed to ping SQLite: "
  | ErrPragmas _ => "failed to set SQLite pragmas: "
  | ErrCreateTable _ => "failed to create soroswap_pairs table: "
  | ErrClose _ => ""
  end.

(** Errors of the storage layer, as opposed to errors about the event. *)
Definition is_storage_error (e : Error) : bool :=
  match e with
  | ErrBeginTx _ | ErrPrepare _ | ErrInsertPair _ | ErrRowsAffected _
  | ErrCheckExistence _ | ErrUpdateReserves _ | ErrCommit _
  | ErrOpen _ | ErrPing _ | ErrPragmas _ | ErrCreateTable _ | ErrClose _ => true
  | _ => false
  end.

(** How a call ends: a nil error, an error, or a run-time panic. *)
Inductive Outcome : Type :=
| Success
| Failure (e : Error)
| Panic.

(** ** The error monad of the storage calls *)

Definition Result (A : Type) : Type := Error + A.

#[global] Instance Result_ret : MRet (sum Error) := λ A x, inr x.
#[global] Instance Result_bind : MBind (sum Error) := λ A B f m,
  match m with
  | inl e => inl e
  | inr x => f x
  end.

Definition fail {A : Type} (e : Error) : Result A := inl e.

(** ** The storage layer *)

(** The calls a handler makes on the handle and on the transaction. *)
Inductive DbOp : Type :=
| OpBeginTx | OpPrepare | OpQuery | OpExec | OpRowsAffected | OpCommit | OpClose.

(** [f op = true]: the driver reports an error at that call. *)
Definition Faults : Type := DbOp → bool.

Definition NoFaults : Faults := λ _, false.

(** The calls of [Initialize]. *)
Inductive InitOp : Type :=
| OpOpen | OpPing | OpPragmas | OpCreateTable.

(** [*sql.DB]: the rows of the database it is connected to, whether it was
    closed, and how many times its connections were released. *)
Record DB : Type := mkDB {
  rows : Table;
  closed : bool;
  releases : nat
}.

(** A step that only succeeds or fails. *)
Definition step (f : Faults) (op : DbOp) (wrap : SqlError → Error) : Result unit :=
  if f op then fail (wrap SqlDriver) else mret ().

(** [db.BeginTx]: the transaction starts from the rows of the table. *)
Definition BeginTx (d : DB) (f : Faults) : Result Table :=
  if closed d then fail (ErrBeginTx SqlClosed)
  else if f OpBeginTx then fail (ErrBeginTx SqlDriver)
  else mret (rows d).

(** The three CHECK constraints of the schema, SQL [length] being the number
    of characters of the string. *)
Definition check_constraints (r : Pair) : bool :=
  (0 <? String.length (pair_address r))%nat
  && (0 <? String.length (token_0 r))%nat
  && (0 <? String.length (token_1 r))%nat.

(** [SELECT EXISTS (SELECT 1 FROM soroswap_pairs WHERE pair_address = ?)] *)
Definition pair_exists (addr : string) (t : Table) : bool :=
  existsb (λ r, bool_decide (pair_address r = addr)) t.

(** [INSERT INTO soroswap_pairs (pair_address, token_0, token_1, created_at,
    reserve_0, reserve_1) VALUES (?, ?, ?, ?, '0', '0')
    ON CONFLICT (pair_address) DO NOTHING]: the new table and the number of
    rows affected. *)
Definition insert_pair (addr tok0 tok1 : string) (ts : Time) (t : Table)
  : SqlError + (Table * Z) :=
  let r := mkPair addr tok0 tok1 "0" "0" ts None None in
  if negb (check_constraints r) then inl SqlConstraint
  else if pair_exists addr t then inr (t, 0%Z)
  else inr (t ++ [r], 1%Z).

(** [UPDATE soroswap_pairs SET reserve_0 = ?, reserve_1 = ?, last_sync_at = ?,
    last_sync_ledger = ? WHERE pair_address = ?] on one row. *)
Definition set_reserves (res0 res1 : string) (ts : Time) (ledger : Z) (r : Pair) : Pair :=
  mkPair (pair_address r) (token_0 r) (token_1 r)
         res0 res1 (created_at r) (Some ts) (Some ledger).

Definition update_reserves (res0 res1 : string) (ts : Time) (ledger : Z)
    (addr : string) (t : Table) : Table * Z :=
  ((λ r, if bool_decide (pair_address r = addr)
         then set_reserves res0 res1 ts ledger r else r) <$> t,
   Z.of_nat (length (filter (λ r, pair_address r = addr) t))).

(** How a transaction ends: committed with new rows, or rolled back. *)
Inductive TxEnd : Type :=
| Committed (t : Table)
| RolledBack.

(** [tx.Commit()], whose error is returned as it is. *)
Definition Commit (f : Faults) (tx : Table) : Result TxEnd :=
  if f OpCommit then fail (ErrCommit SqlDriver) else mret (Committed tx).

(** ** The consumer *)

Record SaveSoroswapPairsToSQLite : Type := mkConsumer {
  db : option DB;
  dbPath : string;
  name : string;
  version : string
}.

Definition New : SaveSoroswapPairsToSQLite :=
  mkConsumer None "" "SaveSoroswapPairsToSQLite" "1.0.0".

Definition Name (s : SaveSoroswapPairsToSQLite) : string := name s.
Definition Version (s : SaveSoroswapPairsToSQLite) : string := version s.
Definition ConsumerPlugin : string := "consumer".
Definition Type_ (s : SaveSoroswapPairsToSQLite) : string := ConsumerPlugin.

Definition with_db (s : SaveSoroswapPairsToSQLite) (d : DB) : SaveSoroswapPairsToSQLite :=
  mkConsumer (Some d) (dbPath s) (name s) (version s).

(** The rows the consumer's handle gives access to; none without a handle. *)
Definition table (s : SaveSoroswapPairsToSQLite) : Table :=
  match db s with
  | Some d => rows d
  | None => []
  end.

(** The end of a handler that began a transaction on [d]: the rows change on
    commit only, the deferred [tx.Rollback()] covers every other return. *)
Definition finish (s : SaveSoroswapPairsToSQLite) (d : DB) (r : Result TxEnd)
  : SaveSoroswapPairsToSQLite * Outcome :=
  match r with
  | inl e => (s, Failure e)
  | inr RolledBack => (s, Success)
  | inr (Committed t) => (with_db s (mkDB t (closed d) (releases d)), Success)
  end.

Definition handleNewPair (s : SaveSoroswapPairsToSQLite) (event : NewPairEvent.t)
    (f : Faults) : SaveSoroswapPairsToSQLite * Outcome :=
  if bool_decide (NewPairEvent.PairAddress event = "")
     || bool_decide (NewPairEvent.Token0 event = "")
     || bool_decide (NewPairEvent.Token1 event = "")
  then (s, Failure ErrInvalidNewPair)
  else
    match db s with
    | None => (s, Panic)
    | Some d =>
      finish s d (
        tx ← BeginTx d f;
        _ ← step f OpPrepare ErrPrepare;
        result ← (if f OpExec then fail (ErrInsertPair SqlDriver)
                  else match insert_pair (NewPairEvent.PairAddress event)
                                         (NewPairEvent.Token0 event)
                                         (NewPairEvent.Token1 event)
                                         (NewPairEvent.Timestamp event) tx with
                       | inl err => fail (ErrInsertPair err)
                       | inr res => mret res
                       end);
        _ ← step f OpRowsAffected ErrRowsAffected;
        Commit f result.1)
    end.

Definition handleSync (s : SaveSoroswapPairsToSQLite) (event : SyncEvent.t)
    (f : Faults) : SaveSoroswapPairsToSQLite * Outcome :=
  match db s with
  | None => (s, Panic)
  | Some d =>
    finish s d (
      tx ← BeginTx d f;
      exists_ ← (if f OpQuery then fail (ErrCheckExistence SqlDriver)
                 else mret (pair_exists (SyncEvent.ContractID event) tx));
      if negb exists_ then mret RolledBack
      else
        _ ← step f OpPrepare ErrPrepare;
        result ← (if f OpExec then fail (ErrUpdateReserves SqlDriver)
                  else mret (update_reserves (SyncEvent.NewReserve0 event)
                                             (SyncEvent.NewReserve1 event)
                                             (SyncEvent.Timestamp event)
                                             (SyncEvent.LedgerSequence event)
                                             (SyncEvent.ContractID event) tx));
        _ ← step f OpRowsAffected ErrRowsAffected;
        Commit f result.1)
  end.

(** [db.Close()] of [database/sql]: closing a closed handle does nothing and
    returns nil; closing an open one releases its connections whether or not
    the driver reports an error while doing so. *)
Definition sql_DB_Close (d : DB) (f : Faults) : DB * option SqlError :=
  if closed d then (d, None)
  else (mkDB (rows d) true (S (releases d)),
        if f OpClose then Some SqlDriver else None).

Definition Close (s : SaveSoroswapPairsToSQLite) (f : Faults)
  : SaveSoroswapPairsToSQLite * Outcome :=
  match db s with
  | Some d =>
    let '(d', err) := sql_DB_Close d f in
    (with_db s d', match err with Some e => Failure (ErrClose e) | None => Success end)
  | None => (s, Success)
  end.

(** What [Initialize] finds outside the process: the rows already stored in
    the database file at each path (none for a file it creates), and the
    calls that fail. *)
Record Storage : Type := mkStorage {
  existing : string → Table;
  init_fault : InitOp → bool
}.

Definition default_db_path : string := "soroswap_pairs.sqlite".

Definition Initialize (s : SaveSoroswapPairsToSQLite) (config : gmap string GoValue)
    (env : Storage) : SaveSoroswapPairsToSQLite * Outcome :=
  let '(p, ok) := assert_string (config !! "db_path") in
  let dbPath_ := if negb ok then default_db_path else p in
  let s := mkConsumer (db s) dbPath_ (name s) (version s) in
  if init_fault env OpOpen then (s, Failure (ErrOpen SqlDriver))
  else if init_fault env OpPing then (s, Failure (ErrPing SqlDriver))
  else if init_fault env OpPragmas then (s, Failure (ErrPragmas SqlDriver))
  else if init_fault env OpCreateTable then (s, Failure (ErrCreateTable SqlDriver))
  else (with_db s (mkDB (existing env dbPath_) false 0), Success).

(** The three uses of [json.Unmarshal] in [Process]: into the temporary
    struct that holds [type], into a [NewPairEvent] and into a [SyncEvent]. *)
Class JsonDecoder : Type := {
  unmarshal_type : list byte → JsonError + string;
  unmarshal_NewPairEvent : list byte → JsonError + NewPairEvent.t;
  unmarshal_SyncEvent : list byte → JsonError + SyncEvent.t
}.

Definition Process `{JsonDecoder} (s : SaveSoroswapPairsToSQLite) (msg : Message)
    (f : Faults) : SaveSoroswapPairsToSQLite * Outcome :=
  let '(jsonBytes, ok) := assert_bytes (Payload msg) in
  if negb ok then (s, Failure (ErrPayloadType (go_type_name (Payload msg))))
  else
    match unmarshal_type jsonBytes with
    | inl err => (s, Failure (ErrDecodeType err))
    | inr temp_Type =>
      if bool_decide (temp_Type = "new_pair") then
        match unmarshal_NewPairEvent jsonBytes with
        | inl err => (s, Failure (ErrDecodeNewPair err))
        | inr newPairEvent => handleNewPair s newPairEvent f
        end
      else if bool_decide (temp_Type = "sync") then
        match unmarshal_SyncEvent jsonBytes with
        | inl err => (s, Failure (ErrDecodeSync err))
        | inr syncEvent => handleSync s syncEvent f
        end
      else (s, Failure (ErrUnknownType temp_Type))
    end.

(** A run of [Process] calls, one message and one behaviour of the storage
    per call; a panic ends the run. *)
Fixpoint process_all `{JsonDecoder} (s : SaveSoroswapPairsToSQLite)
    (calls : list (Message * Faults)) : SaveSoroswapPairsToSQLite * list Outcome :=
  match calls with
  | [] => (s, [])
  | (msg, f) :: rest =>
    let '(s1, o) := Process s msg f in
    match o with
    | Panic => (s1, [Panic])
    | _ => let '(s2, os) := process_all s1 rest in (s2, o :: os)
    end
  end.

(** A run of [Close] calls. *)
Fixpoint close_all (s : SaveSoroswapPairsToSQLite) (fs : list Faults)
  : SaveSoroswapPairsToSQLite * list Outcome :=
  match fs with
  | [] => (s, [])
  | f :: rest =>
    let '(s1, o) := Close s f in
    let '(s2, os) := close_all s1 rest in (s2, o :: os)
  end.

(** ** Predicates on states *)

(** The handle exists and was not closed. *)
Definition is_open (s : SaveSoroswapPairsToSQLite) : bool :=
  match db s with
  | Some d => negb (closed d)
  | None => false
  end.

(** No call of a handler fails in the storage layer. *)
Definition healthy (f : Faults) : bool :=
  negb (f OpBeginTx || f OpPrepare || f OpQuery || f OpExec
        || f OpRowsAffected || f OpCommit).

(** A NewPairEvent that passes the validation of [handleNewPair]. *)
Definition valid_new_pair (e : NewPairEvent.t) : bool :=
  negb (bool_decide (NewPairEvent.PairAddress e = ""))
  && negb (bool_decide (NewPairEvent.Token0 e = ""))
  && negb (bool_decide (NewPairEvent.Token1 e = "")).

(** The addresses of the rows, in table order. *)
Definition addresses (t : Table) : list string := pair_address <$> t.


(** What the schema guarantees of a table: the primary key is unique and the
    three CHECK constraints hold of every row. *)
Definition schema_ok (t : Table) : Prop :=
  NoDup (addresses t) ∧ Forall (λ r, check_constraints r = true) t.

(** The states the consumer can be in: made by [New], then any calls of
    [Initialize] (on a database that already obeys the schema), [Process] and
    [Close]. *)
Inductive reachable `{JsonDecoder} : SaveSoroswapPairsToSQLite → Prop :=
| reachable_New : reachable New
| reachable_Initialize s config env :
    reachable s → (∀ p, schema_ok (existing env p)) →
    reachable (Initialize s config env).1
| reachable_Process s msg f :
    reachable s → reachable (Process s msg f).1
| reachable_Close s f :
    reachable s → reachable (Close s f).1.

Set Warnings "-register-all".

(** ** A reader of JSON text

    An executable instance of the decoder, used to run the handlers on the
    wire payloads: the grammar of RFC 8259 over bytes, then the rules by which
    [json.Unmarshal] fills a struct (keys matched by name, then without regard
    to ASCII case; later members overwrite earlier ones; [null] leaves a field
    as it is; a value of the wrong kind is an error). *)
Module Json.
Local Open Scope Z_scope.

Inductive value : Type :=
| Null
| Bool (b : bool)
| Number (literal : string)
| Str (s : string) (escaped : bool)
| Array (items : list value)
| Object (members : list (string * value)).

Definition codes (b : list byte) : list Z := (λ x, Z.of_N (Byte.to_N x)) <$> b.

Definition text (l : list Z) : string :=
  fold_right (λ c s, String (Ascii.ascii_of_N (Z.to_N c)) s) EmptyString l.

Definition is_ws (c : Z) : bool :=
  (c =? 32) || (c =? 9) || (c =? 10) || (c =? 13).

Definition is_digit (c : Z) : bool := (48 <=? c) && (c <=? 57).

Fixpoint skip_ws (l : list Z) : list Z :=
  match l with
  | c :: r => if is_ws c then skip_ws r else l
  | [] => []
  end.

Definition hex_val (c : Z) : option Z :=
  if is_digit c then Some (c - 48)
  else if (97 <=? c) && (c <=? 102) then Some (c - 87)
  else if (65 <=? c) && (c <=? 70) then Some (c - 55)
  else None.

Definition hex4 (a b c d : Z) : option Z :=
  x1 ← hex_val a; x2 ← hex_val b; x3 ← hex_val c; x4 ← hex_val d;
  Some (((x1 * 16 + x2) * 16 + x3) * 16 + x4).

(** The UTF-8 encoding of a code point. *)
Definition utf8 (cp : Z) : list Z :=
  if cp <? 128 then [cp]
  else if cp <? 2048 then [192 + cp / 64; 128 + cp mod 64]
  else if cp <? 65536 then [224 + cp / 4096; 128 + (cp / 64) mod 64; 128 + cp mod 64]
  else [240 + cp / 262144; 128 + (cp / 4096) mod 64; 128 + (cp / 64) mod 64;
        128 + cp mod 64].

Definition is_high (cp : Z) : bool := (55296 <=? cp) && (cp <? 56320).
Definition is_low (cp : Z) : bool := (56320 <=? cp) && (cp <? 57344).
Definition replacement : Z := 65533.

Definition simple_escape (e : Z) : option Z :=
  if e =? 34 then Some 34 else if e =? 92 then Some 92
  else if e =? 47 then Some 47 else if e =? 98 then Some 8
  else if e =? 102 then Some 12 else if e =? 110 then Some 10
  else if e =? 114 then Some 13 else if e =? 116 then Some 9
  else None.

(** The rest of a string literal, after its opening quote. *)
Fixpoint read_string (l : list Z) (acc : list Z) (esc : bool)
  : option (string * bool * list Z) :=
  match l with
  | [] => None
  | c :: r =>
    if c =? 34 then Some (text (rev acc), esc, r)
    else if c <? 32 then None
    else if c =? 92 then
      match r with
      | [] => None
      | e :: r1 =>
        if e =? 117 then
          match r1 with
          | a :: b :: c2 :: d :: r2 =>
            match hex4 a b c2 d with
            | None => None
            | Some cp =>
              if is_high cp then
                match r2 with
                | bs :: u :: a' :: b' :: c' :: d' :: r3 =>
                  match hex4 a' b' c' d' with
                  | Some lo =>
                    if (bs =? 92) && (u =? 117) && is_low lo
                    then read_string r3
                           (rev (utf8 (65536 + (cp - 55296) * 1024 + (lo - 56320))) ++ acc)
                           true
                    else read_string r2 (rev (utf8 replacement) ++ acc) true
                  | None => read_string r2 (rev (utf8 replacement) ++ acc) true
                  end
                | _ => read_string r2 (rev (utf8 replacement) ++ acc) true
                end
              else if is_low cp then read_string r2 (rev (utf8 replacement) ++ acc) true
              else read_string r2 (rev (utf8 cp) ++ acc) true
            end
          | _ => None
          end
        else
          match simple_escape e with
          | Some x => read_string r1 (x :: acc) true
          | None => None
          end
      end
    else read_string r (c :: acc) esc
  end.

Fixpoint span_digits (l : list Z) : list Z * list Z :=
  match l with
  | c :: r => if is_digit c then let '(ds, r') := span_digits r in (c :: ds, r')
              else ([], l)
  | [] => ([], [])
  end.

(** A number literal: an optional minus sign, an integer part without
    leading zeros, an optional fraction and an optional exponent. *)
Definition read_number (l : list Z) : option (string * list Z) :=
  let '(sign, l1) := match l with
                     | c :: r => if c =? 45 then ([45], r) else ([], l)
                     | [] => ([], l)
                     end in
  let '(int, l2) := span_digits l1 in
  match int with
  | [] => None
  | d :: ds =>
    if (d =? 48) && negb (bool_decide (ds = [])) then None
    else
      let frac_part :=
        match l2 with
        | c :: r => if c =? 46 then
                      let '(fs, r') := span_digits r in
                      match fs with | [] => None | _ => Some (46 :: fs, r') end
                    else Some ([], l2)
        | [] => Some ([], l2)
        end in
      '(frac, l3) ← frac_part;
      let exp_part :=
        match l3 with
        | c :: r =>
          if (c =? 101) || (c =? 69) then
            let '(sg, r1) := match r with
                             | s :: r0 => if (s =? 43) || (s =? 45) then ([s], r0) else ([], r)
                             | [] => ([], r)
                             end in
            let '(es, r') := span_digits r1 in
            match es with | [] => None | _ => Some (c :: sg ++ es, r') end
          else Some ([], l3)
        | [] => Some ([], l3)
        end in
      '(exp, l4) ← exp_part;
      Some (text (sign ++ int ++ frac ++ exp), l4)
  end.

Definition read_literal (l : list Z) : option (value * list Z) :=
  match l with
  | 116 :: 114 :: 117 :: 101 :: r => Some (Bool true, r)
  | 102 :: 97 :: 108 :: 115 :: 101 :: r => Some (Bool false, r)
  | 110 :: 117 :: 108 :: 108 :: r => Some (Null, r)
  | _ => None
  end.

Fixpoint read_value (fuel : nat) (l : list Z) : option (value * list Z) :=
  match fuel with
  | O => None
  | S n =>
    match skip_ws l with
    | [] => None
    | c :: r =>
      if c =? 123 then read_members n (skip_ws r) true []
      else if c =? 91 then read_items n (skip_ws r) true []
      else if c =? 34 then
        '(s, esc, r') ← read_string r [] false; Some (Str s esc, r')
      else if (c =? 45) || is_digit c then
        '(lit, r') ← read_number (c :: r); Some (Number lit, r')
      else read_literal (c :: r)
    end
  end
with read_members (fuel : nat) (l : list Z) (first : bool)
    (acc : list (string * value)) : option (value * list Z) :=
  match fuel with
  | O => None
  | S n =>
    match l with
    | [] => None
    | c :: r =>
      if first && (c =? 125) then Some (Object [], r)
      else if c =? 34 then
        '(k, _, r1) ← read_string r [] false;
        match skip_ws r1 with
        | colon :: r2 =>
          if colon =? 58 then
            '(v, r3) ← read_value n r2;
            match skip_ws r3 with
            | d :: r4 =>
              if d =? 44 then read_members n (skip_ws r4) false ((k, v) :: acc)
              else if d =? 125 then Some (Object (rev ((k, v) :: acc)), r4)
              else None
            | [] => None
            end
          else None
        | [] => None
        end
      else None
    end
  end
with read_items (fuel : nat) (l : list Z) (first : bool)
    (acc : list value) : option (value * list Z) :=
  match fuel with
  | O => None
  | S n =>
    match l with
    | [] => None
    | c :: r =>
      if first && (c =? 93) then Some (Array [], r)
      else
        '(v, r1) ← read_value n l;
        match skip_ws r1 with
        | d :: r2 =>
          if d =? 44 then read_items n (skip_ws r2) false (v :: acc)
          else if d =? 93 then Some (Array (rev (v :: acc)), r2)
          else None
        | [] => None
        end
    end
  end.

(** A whole text: one value, with white space around it only. *)
Definition parse (b : list byte) : option value :=
  let l := codes b in
  '(v, r) ← read_value (2 * length l + 2) l;
  match skip_ws r with
  | [] => Some v
  | _ => None
  end.

(** *** Filling a struct *)

Fixpoint fold_case (s : string) : string :=
  match s with
  | EmptyString => EmptyString
  | String a r =>
    let n := Z.of_N (Ascii.N_of_ascii a) in
    String (if (65 <=? n) && (n <=? 90) then Ascii.ascii_of_N (Z.to_N (n + 32)) else a)
           (fold_case r)
  end.

(** Does the key of a member select the field with this (lower-case) tag? *)
Definition selects (key tag : string) : bool := bool_decide (fold_case key = tag).

Definition set_string (v : value) (old : string) : option string :=
  match v with
  | Str s _ => Some s
  | Null => Some old
  | _ => None
  end.

Fixpoint string_codes (s : string) : list Z :=
  match s with
  | EmptyString => []
  | String a r => Z.of_N (Ascii.N_of_ascii a) :: string_codes r
  end.

Definition digits_value (ds : list Z) : Z := foldl (λ n d, n * 10 + (d - 48)) 0 ds.

(** [strconv.ParseInt(literal, 10, 64)] on a number literal. *)
Definition set_int64 (v : value) (old : Z) : option Z :=
  match v with
  | Number lit =>
    let l := string_codes lit in
    let '(neg, ds) := match l with
                      | c :: r => if c =? 45 then (true, r) else (false, l)
                      | [] => (false, l)
                      end in
    if forallb is_digit ds && negb (bool_decide (ds = [])) then
      let n := if neg then - digits_value ds else digits_value ds in
      if (- 9223372036854775808 <=? n) && (n <=? 9223372036854775807)
      then Some n else None
    else None
  | Null => Some old
  | _ => None
  end.

Definition two (a b : Z) : option Z :=
  if is_digit a && is_digit b then Some ((a - 48) * 10 + (b - 48)) else None.

Definition leap (y : Z) : bool :=
  (y mod 4 =? 0) && (negb (y mod 100 =? 0) || (y mod 400 =? 0)).

Definition days_in_month (y m : Z) : Z :=
  if m =? 2 then (if leap y then 29 else 28)
  else if (m =? 4) || (m =? 6) || (m =? 9) || (m =? 11) then 30
  else 31.

(** The days from 1970-01-01 to a date of the proleptic Gregorian calendar. *)
Definition days_from_civil (y m d : Z) : Z :=
  let y' := if m <=? 2 then y - 1 else y in
  let era := y' / 400 in
  let yoe := y' - era * 400 in
  let mp := (m + 9) mod 12 in
  let doy := (153 * mp + 2) / 5 + d - 1 in
  let doe := yoe * 365 + yoe / 4 - yoe / 100 + doy in
  era * 146097 + doe - 719468.

(** The zone of an RFC 3339 time: [Z], or a sign, hours and minutes. *)
Definition read_zone (l : list Z) : option Z :=
  match l with
  | [z] => if z =? 90 then Some 0 else None
  | [sg; h1; h2; colon; m1; m2] =>
    hh ← two h1 h2; mm ← two m1 m2;
    if (colon =? 58) && (hh <? 24) && (mm <? 60) then
      if sg =? 43 then Some (hh * 3600 + mm * 60)
      else if sg =? 45 then Some (- (hh * 3600 + mm * 60))
      else None
    else None
  | _ => None
  end.

(** Nanoseconds from the digits of a fraction: nine of them, padded. *)
Definition nanoseconds (fs : list Z) : Z :=
  digits_value (take 9 (fs ++ replicate 9 48)).

(** [time.Time.UnmarshalJSON] on the content of a string: RFC 3339. *)
Definition read_time (s : string) : option Time :=
  match string_codes s with
  | y1 :: y2 :: y3 :: y4 :: d1 :: mo1 :: mo2 :: d2 :: da1 :: da2 :: t
      :: h1 :: h2 :: c1 :: mi1 :: mi2 :: c2 :: s1 :: s2 :: rest =>
    yh ← two y1 y2; yl ← two y3 y4; mo ← two mo1 mo2; da ← two da1 da2;
    hh ← two h1 h2; mi ← two mi1 mi2; ss ← two s1 s2;
    let y := yh * 100 + yl in
    if (d1 =? 45) && (d2 =? 45) && (t =? 84) && (c1 =? 58) && (c2 =? 58)
       && (1 <=? mo) && (mo <=? 12) && (1 <=? da) && (da <=? days_in_month y mo)
       && (hh <? 24) && (mi <? 60) && (ss <? 60)
    then
      '(fs, zone) ← match rest with
                    | c :: r =>
                      if c =? 46 then
                        let '(fs, r') := span_digits r in
                        match fs with
                        | [] => None
                        | _ => Some (fs, r')
                        end
                      else Some ([], rest)
                    | [] => None
                    end;
      off ← read_zone zone;
      Some (mkTime (days_from_civil y mo da * 86400 + hh * 3600 + mi * 60 + ss - off)
                   (nanoseconds fs) off)
    else None
  | _ => None
  end.

Definition set_time (v : value) (old : Time) : option Time :=
  match v with
  | Str s esc => if esc then None else read_time s
  | Null => Some old
  | _ => None
  end.

(** Into [struct { Type string }]. *)
Definition fill_type (ty : string) (m : string * value) : option string :=
  if selects m.1 "type" then set_string m.2 ty else Some ty.

Definition fill_NewPairEvent (e : NewPairEvent.t) (m : string * value)
  : option NewPairEvent.t :=
  let '(NewPairEvent.mk ty addr t0 t1 ts) := e in
  if selects m.1 "type" then x ← set_string m.2 ty; Some (NewPairEvent.mk x addr t0 t1 ts)
  else if selects m.1 "pair_address" then
    x ← set_string m.2 addr; Some (NewPairEvent.mk ty x t0 t1 ts)
  else if selects m.1 "token_0" then
    x ← set_string m.2 t0; Some (NewPairEvent.mk ty addr x t1 ts)
  else if selects m.1 "token_1" then
    x ← set_string m.2 t1; Some (NewPairEvent.mk ty addr t0 x ts)
  else if selects m.1 "timestamp" then
    x ← set_time m.2 ts; Some (NewPairEvent.mk ty addr t0 t1 x)
  else Some e.

Definition fill_SyncEvent (e : SyncEvent.t) (m : string * value) : option SyncEvent.t :=
  let '(SyncEvent.mk ty id r0 r1 ts seq) := e in
  if selects m.1 "type" then x ← set_string m.2 ty; Some (SyncEvent.mk x id r0 r1 ts seq)
  else if selects m.1 "contract_id" then
    x ← set_string m.2 id; Some (SyncEvent.mk ty x r0 r1 ts seq)
  else if selects m.1 "new_reserve_0" then
    x ← set_string m.2 r0; Some (SyncEvent.mk ty id x r1 ts seq)
  else if selects m.1 "new_reserve_1" then
    x ← set_string m.2 r1; Some (SyncEvent.mk ty id r0 x ts seq)
  else if selects m.1 "timestamp" then
    x ← set_time m.2 ts; Some (SyncEvent.mk ty id r0 r1 x seq)
  else if selects m.1 "ledger_sequence" then
    x ← set_int64 m.2 seq; Some (SyncEvent.mk ty id r0 r1 ts x)
  else Some e.

(** [json.Unmarshal(data, &target)] for a struct [target] at its zero value. *)
Definition unmarshal {A : Type} (fill : A → string * value → option A) (zero : A)
    (data : list byte) : JsonError + A :=
  match parse data with
  | None => inl "invalid character or unexpected end of JSON input"
  | Some Null => inr zero
  | Some (Object ms) =>
    match foldl (λ acc m, a ← acc; fill a m) (Some zero) ms with
    | Some a => inr a
    | None => inl "json: cannot unmarshal value into Go struct field"
    end
  | Some _ => inl "json: cannot unmarshal value into Go value of struct type"
  end.

Definition decoder : JsonDecoder := {|
  unmarshal_type := unmarshal fill_type EmptyString;
  unmarshal_NewPairEvent :=
    unmarshal fill_NewPairEvent
              (NewPairEvent.mk EmptyString EmptyString EmptyString EmptyString zero_time);
  unmarshal_SyncEvent :=
    unmarshal fill_SyncEvent
              (SyncEvent.mk EmptyString EmptyString EmptyString EmptyString zero_time 0)
|}.
End Json.

(** ** Wire payloads *)

(** The bytes of a payload written with apostrophes for quotation marks. *)
Fixpoint requote (s : string) : string :=
  match s with
  | EmptyString => EmptyString
  | String a r =>
    String (if bool_decide (a = Ascii.ascii_of_nat 39) then Ascii.ascii_of_nat 34 else a)
           (requote r)
  end.

Definition wire (s : string) : Message :=
  mkMessage (VBytes (String.list_byte_of_string (requote s))).

(** A consumer initialized on a new database file, with nothing failing. *)
Definition fresh : SaveSoroswapPairsToSQLite :=
  (Initialize New ∅ (mkStorage (λ _, []) (λ _, false))).1.

Definition new_pair_P1 : Message :=
  wire "{'type':'new_pair','pair_address':'P1','token_0':'A','token_1':'B','timestamp':'2024-01-01T00:00:00Z'}".

Definition sync_P1 : Message :=
  wire "{'type':'sync','contract_id':'P1','new_reserve_0':'100','new_reserve_1':'50','timestamp':'2024-01-01T01:00:00Z','ledger_sequence':42}".

Definition sync_UNKNOWN : Message :=
  wire "{'type':'sync','contract_id':'UNKNOWN','new_reserve_0':'1','new_reserve_1':'2','timestamp':'2024-01-01T01:00:00Z','ledger_sequence':7}".

(** The row of the pair [P1] as its new_pair event stores it, and a consumer
    whose table holds that row only. *)
Definition stored_P1 : Pair :=
  mkPair "P1" "A" "B" "0" "0" (mkTime 1704067200 0 0) None None.

Definition holding_P1 : SaveSoroswapPairsToSQLite :=
  with_db fresh (mkDB [stored_P1] false 0).


Definition tokenless_P1 : NewPairEvent.t :=
  NewPairEvent.mk "new_pair" "P1" "" "B" (mkTime 1704153600 0 0).

Definition event_P2 : NewPairEvent.t :=
  NewPairEvent.mk "new_pair" "P2" "C" "D" (mkTime 1704153600 0 0).

Definition sync_event_P1 : SyncEvent.t :=
  SyncEvent.mk "sync" "P1" "100" "50" (mkTime 1704070800 0 0) 42.

(** A SyncEvent decoded from an object that has the type field only. *)
Definition empty_sync : SyncEvent.t :=
  SyncEvent.mk "sync" "" "" "" zero_time 0.

(** The number of releases of the consumer's handle. *)
Definition released (s : SaveSoroswapPairsToSQLite) : nat :=
  match db s with
  | Some d => releases d
  | None => 0
  end.

(** The row a NewPairEvent stands for: reserves at ["0"], never synced. *)
Definition row_of (e : NewPairEvent.t) : Pair :=
  mkPair (NewPairEvent.PairAddress e) (NewPairEvent.Token0 e) (NewPairEvent.Token1 e)
         "0" "0" (NewPairEvent.Timestamp e) None None.

(** ** Derived views of the statements *)

(** The UPDATE of [handleSync] with the arguments the event binds to it. *)
Definition sync_rows (e : SyncEvent.t) (t : Table) : Table :=
  (update_reserves (SyncEvent.NewReserve0 e) (SyncEvent.NewReserve1 e)
                   (SyncEvent.Timestamp e) (SyncEvent.LedgerSequence e)
                   (SyncEvent.ContractID e) t).1.

(** The columns that no statement of the handlers assigns after the INSERT. *)
Definition immutable_columns (r : Pair) : string * string * string * Time :=
  (pair_address r, token_0 r, token_1 r, created_at r).

(** More events and states to run the handlers on. *)
Definition stale_sync_P1 : SyncEvent.t :=
  SyncEvent.mk "sync" "P1" "7" "9" (mkTime 1704067300 0 0) 41.

Definition sync_event_P2 : SyncEvent.t :=
  SyncEvent.mk "sync" "P2" "5" "6" (mkTime 1704157200 0 0) 43.

Definition stored_P2 : Pair :=
  mkPair "P2" "C" "D" "0" "0" (mkTime 1704153600 0 0) None None.

Definition holding_P1_P2 : SaveSoroswapPairsToSQLite :=
  with_db fresh (mkDB [stored_P1; stored_P2] false 0).

(** A storage in which every call succeeds but [tx.Commit]. *)
Definition commit_fails : Faults :=
  λ op, match op with OpCommit => true | _ => false end.

(** ** The storage statements *)

Section Statements.
Implicit Types (t : Table) (r : Pair) (addr : string).

Lemma pair_exists_elem addr t :
  pair_exists addr t = true ↔ addr ∈ addresses t.
Proof.
  unfold pair_exists, addresses. rewrite existsb_exists, list_elem_of_fmap.
  split.
  - intros (r & Hin & Heq). apply bool_decide_eq_true in Heq.
    exists r. split; [done | by apply list_elem_of_In].
  - intros (r & -> & Hin). exists r. split; [by apply list_elem_of_In |].
    by apply bool_decide_eq_true.
Qed.

Lemma pair_exists_false addr t :
  pair_exists addr t = false ↔ addr ∉ addresses t.
Proof.
  rewrite <- pair_exists_elem. destruct (pair_exists addr t); naive_solver.
Qed.

Lemma check_constraints_nonempty r :
  check_constraints r = true ↔
  pair_address r ≠ "" ∧ token_0 r ≠ "" ∧ token_1 r ≠ "".
Proof.
  unfold check_constraints. rewrite !andb_true_iff, !Nat.ltb_lt.
  assert (Hlen : ∀ x : string, (0 < String.length x)%nat ↔ x ≠ "").
  { intros [|a x]; simpl; split; try done; lia. }
  rewrite !Hlen. tauto.
Qed.

Lemma addresses_update res0 res1 ts ledger addr t :
  addresses (update_reserves res0 res1 ts ledger addr t).1 = addresses t.
Proof.
  unfold addresses, update_reserves. simpl.
  induction t as [|r t IH]; [done |]. cbn. f_equal; [| exact IH].
  by case_bool_decide.
Qed.

Lemma schema_ok_update res0 res1 ts ledger addr t :
  schema_ok t → schema_ok (update_reserves res0 res1 ts ledger addr t).1.
Proof.
  intros [Hnd Hck]. split; [by rewrite addresses_update |].
  unfold update_reserves. simpl. apply Forall_fmap.
  eapply Forall_impl; [exact Hck |]. intros r Hr. simpl.
  by case_bool_decide.
Qed.

Lemma insert_pair_cases addr tok0 tok1 ts t :
  let r := mkPair addr tok0 tok1 "0" "0" ts None None in
  (check_constraints r = false ∧ insert_pair addr tok0 tok1 ts t = inl SqlConstraint)
  ∨ (check_constraints r = true ∧ pair_exists addr t = true
     ∧ insert_pair addr tok0 tok1 ts t = inr (t, 0%Z))
  ∨ (check_constraints r = true ∧ pair_exists addr t = false
     ∧ insert_pair addr tok0 tok1 ts t = inr (t ++ [r], 1%Z)).
Proof.
  intros r. unfold insert_pair. fold r.
  destruct (check_constraints r); simpl; [| by left].
  destruct (pair_exists addr t); [right; left | right; right]; done.
Qed.

Lemma schema_ok_insert addr tok0 tok1 ts t t' n :
  schema_ok t → insert_pair addr tok0 tok1 ts t = inr (t', n) → schema_ok t'.
Proof.
  intros [Hnd Hck] Hins.
  destruct (insert_pair_cases addr tok0 tok1 ts t)
    as [[_ H] | [(_ & _ & H) | (Hc & Hex & H)]];
    rewrite H in Hins; simplify_eq; [done |].
  split.
  - unfold addresses. rewrite fmap_app. simpl.
    apply NoDup_app. split; [done |]. split; [| apply NoDup_singleton].
    intros a Ha Hin. apply list_elem_of_singleton in Hin. subst a.
    by apply pair_exists_false in Hex.
  - apply Forall_app. split; [done |]. by apply Forall_singleton.
Qed.



End Statements.

(** ** The handlers *)

Section Handlers.
Implicit Types (s : SaveSoroswapPairsToSQLite) (d : DB) (f : Faults).

Lemma healthy_ops f :
  healthy f = true →
  f OpBeginTx = false ∧ f OpPrepare = false ∧ f OpQuery = false
  ∧ f OpExec = false ∧ f OpRowsAffected = false ∧ f OpCommit = false.
Proof.
  unfold healthy. rewrite negb_true_iff, !orb_false_iff. tauto.
Qed.

Lemma is_open_db s :
  is_open s = true → ∃ d, db s = Some d ∧ closed d = false.
Proof.
  unfold is_open. destruct (db s) as [d|]; [| done].
  intros H. apply negb_true_iff in H. eauto.
Qed.

Lemma table_with_db s d : table (with_db s d) = rows d.
Proof. done. Qed.

Lemma with_db_same s d :
  db s = Some d → with_db s (mkDB (rows d) (closed d) (releases d)) = s.
Proof. destruct s, d. simpl. by intros ->. Qed.

Lemma valid_new_pair_guard (e : NewPairEvent.t) :
  bool_decide (NewPairEvent.PairAddress e = "")
  || bool_decide (NewPairEvent.Token0 e = "")
  || bool_decide (NewPairEvent.Token1 e = "") = negb (valid_new_pair e).
Proof.
  unfold valid_new_pair.
  by destruct (bool_decide _), (bool_decide _), (bool_decide _).
Qed.

Lemma valid_new_pair_fields (e : NewPairEvent.t) :
  valid_new_pair e = true ↔
  NewPairEvent.PairAddress e ≠ "" ∧ NewPairEvent.Token0 e ≠ ""
  ∧ NewPairEvent.Token1 e ≠ "".
Proof.
  unfold valid_new_pair.
  rewrite !andb_true_iff, !negb_true_iff, !bool_decide_eq_false. tauto.
Qed.

Lemma insert_pair_valid (e : NewPairEvent.t) (t : Table) :
  valid_new_pair e = true →
  insert_pair (NewPairEvent.PairAddress e) (NewPairEvent.Token0 e)
              (NewPairEvent.Token1 e) (NewPairEvent.Timestamp e) t =
    inr (if pair_exists (NewPairEvent.PairAddress e) t
         then (t, 0%Z) else (t ++ [row_of e], 1%Z)).
Proof.
  intros Hv. unfold insert_pair. cbv zeta. fold (row_of e).
  assert (Hck : check_constraints (row_of e) = true).
  { apply check_constraints_nonempty. simpl. by apply valid_new_pair_fields. }
  rewrite Hck. simpl. by destruct (pair_exists _ t).
Qed.

(** Whatever the storage does, [handleNewPair] leaves the table as it is or
    appends the row of a valid event whose address was absent. *)
Lemma handleNewPair_table s e f :
  table (handleNewPair s e f).1 = table s
  ∨ (valid_new_pair e = true
     ∧ pair_exists (NewPairEvent.PairAddress e) (table s) = false
     ∧ table (handleNewPair s e f).1 = table s ++ [row_of e]).
Proof.
  unfold handleNewPair. rewrite valid_new_pair_guard.
  destruct (valid_new_pair e) eqn:Hv; simpl; [| by left].
  destruct (db s) as [d|] eqn:Hd; [| by left].
  assert (Ht : table s = rows d) by (unfold table; by rewrite Hd).
  rewrite Ht.
  unfold BeginTx, step, Commit, finish, mbind, mret, fail, Result_bind, Result_ret.
  destruct (closed d); [by left |].
  destruct (f OpBeginTx); [by left |].
  destruct (f OpPrepare); [by left |].
  destruct (f OpExec); [by left |].
  destruct (insert_pair_cases (NewPairEvent.PairAddress e) (NewPairEvent.Token0 e)
              (NewPairEvent.Token1 e) (NewPairEvent.Timestamp e) (rows d))
    as [[_ H] | [(_ & _ & H) | (_ & Hex & H)]]; rewrite H; clear H.
  - by left.
  - destruct (f OpRowsAffected), (f OpCommit); by left.
  - destruct (f OpRowsAffected), (f OpCommit); simpl; auto.
Qed.

(** Whatever the storage does, [handleSync] leaves the table as it is or
    applies the UPDATE to it. *)
Lemma handleSync_table s e f :
  table (handleSync s e f).1 = table s
  ∨ (pair_exists (SyncEvent.ContractID e) (table s) = true
     ∧ table (handleSync s e f).1 =
         (update_reserves (SyncEvent.NewReserve0 e) (SyncEvent.NewReserve1 e)
            (SyncEvent.Timestamp e) (SyncEvent.LedgerSequence e)
            (SyncEvent.ContractID e) (table s)).1).
Proof.
  unfold handleSync.
  destruct (db s) as [d|] eqn:Hd; [| by left].
  assert (Ht : table s = rows d) by (unfold table; by rewrite Hd).
  rewrite Ht.
  unfold BeginTx, step, Commit, finish, mbind, mret, fail, Result_bind, Result_ret.
  destruct (closed d); [by left |].
  destruct (f OpBeginTx); [by left |].
  destruct (f OpQuery); [by left |].
  destruct (pair_exists _ (rows d)) eqn:Hex; simpl; [| by left].
  destruct (f OpPrepare); [by left |].
  destruct (f OpExec); [by left |].
  destruct (f OpRowsAffected); [by left |].
  destruct (f OpCommit); [by left |].
  by right.
Qed.

(** [handleSync] on an open handle when no storage call fails. *)
Lemma handleSync_healthy s d e f :
  db s = Some d → closed d = false → healthy f = true →
  handleSync s e f =
    if pair_exists (SyncEvent.ContractID e) (rows d)
    then (with_db s (mkDB (update_reserves (SyncEvent.NewReserve0 e)
                             (SyncEvent.NewReserve1 e) (SyncEvent.Timestamp e)
                             (SyncEvent.LedgerSequence e) (SyncEvent.ContractID e)
                             (rows d)).1
                          (closed d) (releases d)), Success)
    else (s, Success).
Proof.
  intros Hd Hc Hf. apply healthy_ops in Hf as (H1 & H2 & H3 & H4 & H5 & H6).
  destruct d as [t c n]; simpl in *; subst c.
  unfold handleSync. rewrite Hd.
  unfold BeginTx, step, Commit, finish, mbind, mret, fail, Result_bind, Result_ret.
  simpl. rewrite H1, H3. destruct (pair_exists _ t); simpl; [| done].
  by rewrite H2, H4, H5, H6.
Qed.

(** The schema holds after a handler if it held before. *)
Lemma handleNewPair_schema_ok s e f :
  schema_ok (table s) → schema_ok (table (handleNewPair s e f).1).
Proof.
  intros Hok. destruct (handleNewPair_table s e f) as [-> | (Hv & Hex & ->)]; [done |].
  eapply (schema_ok_insert _ _ _ _ _ _ 1%Z); [exact Hok |].
  by rewrite (insert_pair_valid e _ Hv), Hex.
Qed.

Lemma handleSync_schema_ok s e f :
  schema_ok (table s) → schema_ok (table (handleSync s e f).1).
Proof.
  intros Hok. destruct (handleSync_table s e f) as [-> | (_ & ->)]; [done |].
  by apply schema_ok_update.
Qed.

(** The addresses before a handler are a prefix of the addresses after. *)
Lemma handleNewPair_addresses s e f :
  addresses (table s) `prefix_of` addresses (table (handleNewPair s e f).1).
Proof.
  destruct (handleNewPair_table s e f) as [-> | (_ & _ & ->)]; [done |].
  unfold addresses. rewrite fmap_app. by apply prefix_app_r.
Qed.

Lemma handleSync_addresses s e f :
  addresses (table (handleSync s e f).1) = addresses (table s).
Proof.
  destruct (handleSync_table s e f) as [-> | (_ & ->)]; [done |].
  apply addresses_update.
Qed.
End Handlers.

(** ** The claims about the handlers *)

Section HandlerClaims.
Implicit Types (s : SaveSoroswapPairsToSQLite) (f : Faults).

(** An event for an address that is present never changes the table, valid
    or not, whatever the storage does. *)
Lemma handleNewPair_existing_frame s (e : NewPairEvent.t) f :
  pair_exists (NewPairEvent.PairAddress e) (table s) = true →
  table (handleNewPair s e f).1 = table s.
Proof.
  intros Hex. destruct (handleNewPair_table s e f) as [H | (_ & H & _)]; [done |].
  congruence.
Qed.


(** C2: for every SyncEvent whose contract_id matches an existing row,
    handled on an open handle whose storage calls succeed, handleSync
    returns success; the table keeps its length and order; every row with
    that address gets reserve_0, reserve_1, last_sync_at and
    last_sync_ledger from the event and keeps pair_address, token_0,
    token_1 and created_at; every other row is unchanged. *)
Theorem handleSync_updates_reserves s (e : SyncEvent.t) f :
  is_open s = true → healthy f = true →
  pair_exists (SyncEvent.ContractID e) (table s) = true →
  (handleSync s e f).2 = Success
  ∧ length (table (handleSync s e f).1) = length (table s)
  ∧ ∀ (i : nat) (r : Pair), table s !! i = Some r →
      ∃ r', table (handleSync s e f).1 !! i = Some r'
        ∧ pair_address r' = pair_address r
        ∧ token_0 r' = token_0 r
        ∧ token_1 r' = token_1 r
        ∧ created_at r' = created_at r
        ∧ if bool_decide (pair_address r = SyncEvent.ContractID e)
          then reserve_0 r' = SyncEvent.NewReserve0 e
               ∧ reserve_1 r' = SyncEvent.NewReserve1 e
               ∧ last_sync_at r' = Some (SyncEvent.Timestamp e)
               ∧ last_sync_ledger r' = Some (SyncEvent.LedgerSequence e)
          else r' = r.
Proof.
  intros Hopen Hf Hex.
  destruct (is_open_db s Hopen) as (d & Hd & Hc).
  assert (Ht : table s = rows d) by (unfold table; by rewrite Hd).
  rewrite (handleSync_healthy s d e f Hd Hc Hf).
  rewrite Ht in Hex. rewrite Hex, Ht. simpl. rewrite !table_with_db. simpl.
  split; [done |]. split; [apply length_fmap |].
  intros i r Hi.
  rewrite list_lookup_fmap, Hi. simpl.
  eexists. split; [done |].
  case_bool_decide; simpl; done.
Qed.

(** A sync for an unknown address never changes the table, whatever the
    storage does. *)
Lemma handleSync_unknown_frame s (e : SyncEvent.t) f :
  pair_exists (SyncEvent.ContractID e) (table s) = false →
  table (handleSync s e f).1 = table s.
Proof.
  intros Hex. destruct (handleSync_table s e f) as [H | (H & _)]; [done |].
  congruence.
Qed.

(** C3: for every SyncEvent whose contract_id matches no row, handled on an
    open handle whose storage calls succeed, handleSync returns success
    (a nil error) and leaves the whole state, hence the table, unchanged. *)
Theorem handleSync_unknown_pair s (e : SyncEvent.t) f :
  is_open s = true → healthy f = true →
  pair_exists (SyncEvent.ContractID e) (table s) = false →
  handleSync s e f = (s, Success).
Proof.
  intros Hopen Hf Hex.
  destruct (is_open_db s Hopen) as (d & Hd & Hc).
  assert (Ht : table s = rows d) by (unfold table; by rewrite Hd).
  rewrite (handleSync_healthy s d e f Hd Hc Hf).
  rewrite Ht in Hex. by rewrite Hex.
Qed.


(** C5: for every NewPairEvent in which pair_address, token_0 or token_1 is
    the empty string, handleNewPair returns the validation error and the
    state, hence the table, is unchanged; this holds in every state and
    whatever the storage would do, the rejection coming before any storage
    call. *)
Theorem handleNewPair_rejects_empty s (e : NewPairEvent.t) f :
  NewPairEvent.PairAddress e = "" ∨ NewPairEvent.Token0 e = ""
  ∨ NewPairEvent.Token1 e = "" →
  handleNewPair s e f = (s, Failure ErrInvalidNewPair).
Proof.
  intros H. unfold handleNewPair.
  destruct H as [-> | [-> | ->]]; simpl;
    rewrite ?orb_true_r; by repeat case_bool_decide.
Qed.
End HandlerClaims.

(** ** Shutdown and initialization *)

Section Lifecycle.
Implicit Types (s : SaveSoroswapPairsToSQLite) (f : Faults).

Lemma with_db_id s d : db s = Some d → with_db s d = s.
Proof. destruct s. simpl. by intros ->. Qed.

(** Without an open handle [Close] does nothing and returns nil. *)
Lemma Close_not_open s f : is_open s = false → Close s f = (s, Success).
Proof.
  unfold is_open, Close, sql_DB_Close.
  destruct (db s) as [d|] eqn:Hd; [| done].
  intros Hc. apply negb_false_iff in Hc. rewrite Hc.
  by rewrite with_db_id.
Qed.

Lemma Close_closes s f : is_open (Close s f).1 = false.
Proof.
  unfold is_open, Close, sql_DB_Close.
  destruct (db s) as [d|] eqn:Hd; simpl; [| by rewrite Hd].
  destruct (closed d) eqn:Hc; simpl; by rewrite ?Hc.
Qed.

Lemma Close_released s f :
  released (Close s f).1 = if is_open s then S (released s) else released s.
Proof.
  unfold released, is_open, Close, sql_DB_Close.
  destruct (db s) as [d|] eqn:Hd; simpl; [| by rewrite Hd].
  by destruct (closed d).
Qed.

Lemma Close_table s f : table (Close s f).1 = table s.
Proof.
  unfold table, Close, sql_DB_Close.
  destruct (db s) as [d|] eqn:Hd; simpl; [| by rewrite Hd].
  by destruct (closed d).
Qed.

Lemma Close_not_panic s f : (Close s f).2 ≠ Panic.
Proof.
  unfold Close, sql_DB_Close. destruct (db s) as [d|]; [| done].
  destruct (closed d); simpl; [done |]. by destruct (f OpClose).
Qed.

Lemma close_all_not_open s fs :
  is_open s = false →
  close_all s fs = (s, replicate (length fs) Success).
Proof.
  intros Hc. induction fs as [|f fs IH]; [done |].
  simpl. by rewrite (Close_not_open s f Hc), IH.
Qed.

Lemma close_all_cons s f fs :
  close_all s (f :: fs) =
    ((close_all (Close s f).1 fs).1, (Close s f).2 :: (close_all (Close s f).1 fs).2).
Proof.
  simpl. destruct (Close s f) as [s1 o]. simpl.
  by destruct (close_all s1 fs).
Qed.

(** C8: Close is always safe.  On a consumer that never acquired a handle
    (any consumer whose db is nil, as before Initialize) it returns success
    and changes nothing.  In any state, any number of Close calls never
    panics, releases the handle at most once over the whole run (once if the
    handle was open and Close is called at all, never otherwise), leaves the
    rows alone, and every call after the first returns success. *)
Theorem Close_is_safe :
  (∀ path nm ver f,
     Close (mkConsumer None path nm ver) f = (mkConsumer None path nm ver, Success))
  ∧ (∀ s fs,
       (Panic ∉ (close_all s fs).2)
       ∧ released (close_all s fs).1
         = (if is_open s && negb (bool_decide (fs = []))
            then S (released s) else released s)
       ∧ (released (close_all s fs).1 ≤ S (released s))%nat
       ∧ table (close_all s fs).1 = table s)
  ∧ (∀ s f fs,
       (close_all s (f :: fs)).2 = (Close s f).2 :: replicate (length fs) Success).
Proof.
  split; [done |]. split.
  - intros s fs. destruct fs as [|f fs].
    + simpl. rewrite andb_false_r.
      split; [apply not_elem_of_nil |]. split; [done |]. split; [lia | done].
    + rewrite close_all_cons. simpl.
      rewrite (close_all_not_open _ fs (Close_closes s f)). simpl.
      rewrite andb_true_r, Close_released.
      split; [| split; [done |]; split].
      * intros Hin. apply elem_of_cons in Hin as [Hin | Hin].
        -- by apply (Close_not_panic s f).
        -- apply elem_of_replicate in Hin as [? _]. done.
      * destruct (is_open s); lia.
      * apply Close_table.
  - intros s f fs. rewrite close_all_cons. simpl.
    by rewrite (close_all_not_open _ fs (Close_closes s f)).
Qed.

(** The path [Initialize] keeps is the string under [db_path], the default
    otherwise. *)
Lemma Initialize_dbPath s (config : gmap string GoValue) env :
  dbPath (Initialize s config env).1 =
    match config !! "db_path" with
    | Some (VString p) => p
    | _ => default_db_path
    end.
Proof.
  unfold Initialize.
  destruct (config !! "db_path") as [[]|]; simpl; by repeat case_match.
Qed.

(** C9: if the configuration map has no db_path key, or holds under it a
    value that is not a string, Initialize takes the default path
    soroswap_pairs.sqlite: it behaves in every respect as with that path
    configured, the path it records is the default, the only errors it can
    return are those of the storage calls, and when these succeed it
    returns success with a handle on the database at the default path. *)
Theorem Initialize_default_path s (config : gmap string GoValue) env :
  (config !! "db_path" = None
   ∨ ∃ v, config !! "db_path" = Some v ∧ ∀ p, v ≠ VString p) →
  dbPath (Initialize s config env).1 = "soroswap_pairs.sqlite"
  ∧ Initialize s config env
    = Initialize s (<["db_path" := VString "soroswap_pairs.sqlite"]> config) env
  ∧ (∀ e, (Initialize s config env).2 = Failure e → is_storage_error e = true)
  ∧ ((∀ op, init_fault env op = false) →
     (Initialize s config env).2 = Success
     ∧ table (Initialize s config env).1 = existing env "soroswap_pairs.sqlite"
     ∧ is_open (Initialize s config env).1 = true).
Proof.
  intros Hcfg.
  assert (Hassert : assert_string (config !! "db_path") = ("", false)).
  { destruct Hcfg as [-> | (v & -> & Hv)]; [done |].
    destruct v; try done. by destruct (Hv str). }
  unfold Initialize. rewrite Hassert, lookup_insert_eq. simpl.
  split; [by repeat case_match |]. split; [done |]. split.
  - intros e. repeat case_match; simpl; intros He; by simplify_eq.
  - intros Hno. by rewrite !Hno.
Qed.
End Lifecycle.

(** ** Dispatch *)

Section Dispatch.
Context `{JsonDecoder}.
Implicit Types (s : SaveSoroswapPairsToSQLite) (f : Faults) (msg : Message).

(** What [Process] does with a message, by cases on its decoding. *)
Lemma Process_cases s msg f :
  (∃ e, Process s msg f = (s, Failure e))
  ∨ (∃ e, Process s msg f = handleNewPair s e f)
  ∨ (∃ e, Process s msg f = handleSync s e f).
Proof.
  unfold Process. destruct (Payload msg); simpl; eauto.
  destruct (unmarshal_type data) as [err | ty]; eauto.
  case_bool_decide.
  - destruct (unmarshal_NewPairEvent data); eauto.
  - case_bool_decide; eauto. destruct (unmarshal_SyncEvent data); eauto.
Qed.

(** A payload that decodes to a new_pair event goes to [handleNewPair], one
    that decodes to a sync event to [handleSync]. *)
Lemma Process_new_pair s data (e : NewPairEvent.t) f :
  unmarshal_type data = inr "new_pair" → unmarshal_NewPairEvent data = inr e →
  Process s (mkMessage (VBytes data)) f = handleNewPair s e f.
Proof. intros Hty He. unfold Process. simpl. by rewrite Hty, He. Qed.

Lemma Process_sync s data (e : SyncEvent.t) f :
  unmarshal_type data = inr "sync" → unmarshal_SyncEvent data = inr e →
  Process s (mkMessage (VBytes data)) f = handleSync s e f.
Proof. intros Hty He. unfold Process. simpl. by rewrite Hty, He. Qed.

(** C6: for every message whose payload is not a byte sequence, or whose
    bytes the decoding of the type field rejects (as it does bytes that are
    not valid JSON), or whose decoded type is neither new_pair nor sync,
    Process returns an error, not a panic, and the state, hence the table,
    is unchanged; in every state and whatever the storage would do. *)
Theorem Process_rejects_malformed s msg f :
  (∀ data, Payload msg ≠ VBytes data)
  ∨ (∃ data err, Payload msg = VBytes data ∧ unmarshal_type data = inl err)
  ∨ (∃ data ty, Payload msg = VBytes data ∧ unmarshal_type data = inr ty
                ∧ ty ≠ "new_pair" ∧ ty ≠ "sync") →
  ∃ e, Process s msg f = (s, Failure e)
       ∧ (Process s msg f).2 ≠ Panic
       ∧ table (Process s msg f).1 = table s.
Proof.
  intros Hbad.
  assert (Herr : ∃ e, Process s msg f = (s, Failure e)).
  { unfold Process.
    destruct Hbad as [Hp | [(data & err & Hp & Hdec) | (data & ty & Hp & Hdec & Hn & Hs)]].
    - destruct (Payload msg) eqn:Hpay; simpl; eauto. by destruct (Hp data).
    - rewrite Hp. simpl. rewrite Hdec. eauto.
    - rewrite Hp. simpl. rewrite Hdec.
      rewrite !bool_decide_eq_false_2 by done. eauto. }
  destruct Herr as [e He]. exists e. by rewrite He.
Qed.

Lemma Process_addresses s msg f :
  addresses (table s) `prefix_of` addresses (table (Process s msg f).1).
Proof.
  destruct (Process_cases s msg f) as [[e ->] | [[e ->] | [e ->]]].
  - done.
  - apply handleNewPair_addresses.
  - by rewrite handleSync_addresses.
Qed.

Lemma process_all_cons s msg f calls :
  (process_all s ((msg, f) :: calls)).1 = (Process s msg f).1
  ∨ (process_all s ((msg, f) :: calls)).1 = (process_all (Process s msg f).1 calls).1.
Proof.
  simpl. destruct (Process s msg f) as [s1 o]. simpl.
  destruct o; [right | right | left]; try done;
    by destruct (process_all s1 calls).
Qed.

Lemma process_all_addresses s calls :
  addresses (table s) `prefix_of` addresses (table (process_all s calls).1).
Proof.
  revert s. induction calls as [|[msg f] calls IH]; intros s; [done |].
  destruct (process_all_cons s msg f calls) as [-> | ->].
  - apply Process_addresses.
  - etrans; [apply Process_addresses | apply IH].
Qed.

(** C7: no sequence of Process calls deletes a pair row.  From every state,
    for every run of messages of any shape and whatever the storage does at
    each call, the addresses present before are a prefix of the addresses
    present after (rows are appended or updated in place), so every address
    present before is present after. *)
Theorem Process_never_deletes s calls :
  addresses (table s) `prefix_of` addresses (table (process_all s calls).1)
  ∧ ∀ addr, addr ∈ addresses (table s) →
            addr ∈ addresses (table (process_all s calls).1).
Proof.
  pose proof (process_all_addresses s calls) as [k Hk].
  split; [by exists k |].
  intros addr Hin. rewrite Hk. apply elem_of_app. by left.
Qed.

Lemma Process_schema_ok s msg f :
  schema_ok (table s) → schema_ok (table (Process s msg f).1).
Proof.
  intros Hok. destruct (Process_cases s msg f) as [[e ->] | [[e ->] | [e ->]]].
  - done.
  - by apply handleNewPair_schema_ok.
  - by apply handleSync_schema_ok.
Qed.

Lemma Initialize_table s (config : gmap string GoValue) env :
  table (Initialize s config env).1 = table s
  ∨ ∃ p, table (Initialize s config env).1 = existing env p.
Proof.
  unfold Initialize. destruct (assert_string _) as [p ok].
  repeat case_match; simpl; eauto.
Qed.

(** The schema holds of the table in every state the consumer reaches. *)
Lemma reachable_schema_ok s : reachable s → schema_ok (table s).
Proof.
  induction 1 as [| s config env _ IH Hex | s msg f _ IH | s f _ IH].
  - split; [apply NoDup_nil_2 | apply Forall_nil_2].
  - destruct (Initialize_table s config env) as [-> | [p ->]]; [done | apply Hex].
  - by apply Process_schema_ok.
  - by rewrite Close_table.
Qed.


End Dispatch.

(** ** The claims at concrete inputs *)


(** [holding_P1] is the state reached by processing the new_pair payload of
    [P1] after initialization. *)
Example holding_P1_processed :
  @Process Json.decoder fresh new_pair_P1 NoFaults = (holding_P1, Success).
Proof. vm_compute. reflexivity. Qed.

(** The sync payload of [P1] then sets its reserves and sync columns. *)
Example sync_P1_processed :
  table (@Process Json.decoder holding_P1 sync_P1 NoFaults).1 =
    [mkPair "P1" "A" "B" "100" "50" (mkTime 1704067200 0 0)
            (Some (mkTime 1704070800 0 0)) (Some 42%Z)].
Proof. vm_compute. reflexivity. Qed.

(** A sync for an address that was never inserted creates no row. *)
Example sync_UNKNOWN_processed :
  @Process Json.decoder holding_P1 sync_UNKNOWN NoFaults = (holding_P1, Success).
Proof. vm_compute. reflexivity. Qed.

(** A sync that names an existing pair and carries no other field is not
    rejected: its zero values are written to the row. *)
Example sync_zero_values_written :
  @Process Json.decoder holding_P1 (wire "{'type':'sync','contract_id':'P1'}") NoFaults
  = (with_db holding_P1
       (mkDB [mkPair "P1" "A" "B" "" "" (mkTime 1704067200 0 0)
                     (Some zero_time) (Some 0%Z)] false 0),
     Success).
Proof. vm_compute. reflexivity. Qed.

(** A sync without a contract_id finds no row and changes nothing. *)
Example sync_without_contract_id :
  @Process Json.decoder holding_P1 (wire "{'type':'sync'}") NoFaults
  = (holding_P1, Success).
Proof. vm_compute. reflexivity. Qed.

(** A handler reached before [Initialize] dereferences the nil handle. *)
Example sync_before_Initialize :
  @Process Json.decoder New sync_P1 NoFaults = (New, Panic).
Proof. vm_compute. reflexivity. Qed.

(** Text that is not JSON is rejected by the reader at the type field. *)
Lemma Json_invalid_rejected (data : list byte) :
  Json.parse data = None →
  ∃ err, @unmarshal_type Json.decoder data = inl err.
Proof.
  intros Hp. simpl. unfold Json.unmarshal. rewrite Hp. eauto.
Qed.



Lemma handleSync_updates_reserves_witness :
  pair_exists (SyncEvent.ContractID sync_event_P1) (table holding_P1) = true
  ∧ (handleSync holding_P1 sync_event_P1 NoFaults).2 = Success
  ∧ ∃ r', table (handleSync holding_P1 sync_event_P1 NoFaults).1 !! 0%nat = Some r'
          ∧ token_0 r' = "A" ∧ created_at r' = mkTime 1704067200 0 0
          ∧ reserve_0 r' = "100" ∧ reserve_1 r' = "50"
          ∧ last_sync_ledger r' = Some 42%Z.
Proof.
  destruct (handleSync_updates_reserves holding_P1 sync_event_P1 NoFaults
              eq_refl eq_refl eq_refl) as (Hok & _ & Hrows).
  split; [reflexivity |]. split; [exact Hok |].
  destruct (Hrows 0%nat stored_P1 eq_refl)
    as (r' & Hr' & _ & Ht0 & _ & Hcr & Hsync).
  simpl in Hsync. destruct Hsync as (Hr0 & Hr1 & _ & Hledger).
  exists r'. repeat split; assumption.
Defined.

Lemma handleSync_unknown_pair_witness :
  pair_exists (SyncEvent.ContractID empty_sync) (table holding_P1) = false
  ∧ handleSync holding_P1 empty_sync NoFaults = (holding_P1, Success).
Proof.
  split; [reflexivity |].
  exact (handleSync_unknown_pair holding_P1 empty_sync NoFaults
           eq_refl eq_refl eq_refl).
Defined.


Lemma handleNewPair_rejects_empty_witness :
  NewPairEvent.Token0 tokenless_P1 = ""
  ∧ handleNewPair holding_P1 tokenless_P1 NoFaults
    = (holding_P1, Failure ErrInvalidNewPair).
Proof.
  split; [reflexivity |].
  apply (handleNewPair_rejects_empty holding_P1 tokenless_P1 NoFaults).
  right. left. reflexivity.
Defined.

Lemma Process_rejects_malformed_witness :
  (∃ e, @Process Json.decoder holding_P1 (mkMessage (VString "sync")) NoFaults
        = (holding_P1, Failure e))
  ∧ (∃ e, @Process Json.decoder holding_P1 (wire "{'type':") NoFaults
          = (holding_P1, Failure e))
  ∧ (∃ e, @Process Json.decoder holding_P1 (wire "{'type':'swap'}") NoFaults
          = (holding_P1, Failure e)).
Proof.
  split; [| split].
  - destruct (@Process_rejects_malformed Json.decoder holding_P1
                (mkMessage (VString "sync")) NoFaults) as (e & He & _).
    + left. intros data. simpl. discriminate.
    + by exists e.
  - destruct (@Process_rejects_malformed Json.decoder holding_P1
                (wire "{'type':") NoFaults) as (e & He & _).
    + right. left. eexists _, _. split; [reflexivity | vm_compute; reflexivity].
    + by exists e.
  - destruct (@Process_rejects_malformed Json.decoder holding_P1
                (wire "{'type':'swap'}") NoFaults) as (e & He & _).
    + right. right. eexists _, _. split; [reflexivity |].
      split; [vm_compute; reflexivity |]. split; discriminate.
    + by exists e.
Defined.

Lemma Initialize_default_path_witness :
  ({[ "db_path" := VInt 5432 ]} : gmap string GoValue) !! "db_path" = Some (VInt 5432)
  ∧ dbPath (Initialize New {[ "db_path" := VInt 5432 ]}
              (mkStorage (λ _, []) (λ _, false))).1 = "soroswap_pairs.sqlite".
Proof.
  split; [reflexivity |].
  apply (Initialize_default_path New {[ "db_path" := VInt 5432 ]}
           (mkStorage (λ _, []) (λ _, false))).
  right. exists (VInt 5432). split; [reflexivity | discriminate].
Defined.

Lemma reachable_holding_P1 : @reachable Json.decoder holding_P1.
Proof.
  change holding_P1 with (@Process Json.decoder fresh new_pair_P1 NoFaults).1.
  apply reachable_Process.
  apply (reachable_Initialize New ∅ (mkStorage (λ _, []) (λ _, false))).
  - apply reachable_New.
  - intros p. split; [apply NoDup_nil_2 | apply Forall_nil_2].
Defined.


(** ** The statements, composed *)

Section StatementAlgebra.
Implicit Types (t : Table) (e : SyncEvent.t).

Lemma pair_exists_cons addr (r : Pair) t :
  pair_exists addr (r :: t) = bool_decide (pair_address r = addr) || pair_exists addr t.
Proof. done. Qed.

(** The UPDATE touches nothing when no row has the address. *)
Lemma sync_rows_absent e t :
  pair_exists (SyncEvent.ContractID e) t = false → sync_rows e t = t.
Proof.
  unfold sync_rows, update_reserves. simpl.
  induction t as [|r t IH]; [done |].
  rewrite pair_exists_cons, orb_false_iff. intros [Hr Ht].
  rewrite fmap_cons, Hr. f_equal. by apply IH.
Qed.


Lemma sync_rows_addresses e t : addresses (sync_rows e t) = addresses t.
Proof. apply addresses_update. Qed.

Lemma sync_rows_immutable e t :
  immutable_columns <$> sync_rows e t = immutable_columns <$> t.
Proof.
  unfold sync_rows, update_reserves. simpl.
  rewrite <- list_fmap_compose. apply list_fmap_ext.
  intros i r _. simpl. by case_bool_decide.
Qed.

Lemma pair_exists_sync_rows addr e t :
  pair_exists addr (sync_rows e t) = pair_exists addr t.
Proof.
  destruct (pair_exists addr t) eqn:Hex.
  - apply pair_exists_elem. rewrite sync_rows_addresses. by apply pair_exists_elem.
  - apply pair_exists_false. rewrite sync_rows_addresses. by apply pair_exists_false.
Qed.

(** Two UPDATEs of the same address: the second one decides. *)
Lemma sync_rows_overwrite e1 e2 t :
  SyncEvent.ContractID e1 = SyncEvent.ContractID e2 →
  sync_rows e2 (sync_rows e1 t) = sync_rows e2 t.
Proof.
  intros Hid. unfold sync_rows, update_reserves. simpl.
  rewrite <- list_fmap_compose. apply list_fmap_ext.
  intros i r _. simpl. rewrite Hid.
  destruct (decide (pair_address r = SyncEvent.ContractID e2)) as [Hr | Hr].
  - rewrite (bool_decide_eq_true_2 _ Hr). simpl.
    by rewrite (bool_decide_eq_true_2 _ Hr).
  - rewrite (bool_decide_eq_false_2 _ Hr).
    by rewrite (bool_decide_eq_false_2 _ Hr).
Qed.

(** Two UPDATEs of different addresses: the order does not matter. *)
Lemma sync_rows_comm e1 e2 t :
  SyncEvent.ContractID e1 ≠ SyncEvent.ContractID e2 →
  sync_rows e2 (sync_rows e1 t) = sync_rows e1 (sync_rows e2 t).
Proof.
  intros Hne. unfold sync_rows, update_reserves. simpl.
  rewrite <- !list_fmap_compose. apply list_fmap_ext.
  intros i r _. simpl.
  destruct (decide (pair_address r = SyncEvent.ContractID e1)) as [H1 | H1];
    destruct (decide (pair_address r = SyncEvent.ContractID e2)) as [H2 | H2].
  - congruence.
  - rewrite (bool_decide_eq_true_2 _ H1). simpl.
    rewrite (bool_decide_eq_false_2 _ H2).
    by rewrite (bool_decide_eq_true_2 _ H1).
  - rewrite (bool_decide_eq_false_2 _ H1), (bool_decide_eq_true_2 _ H2). simpl.
    by rewrite (bool_decide_eq_false_2 _ H1).
  - rewrite (bool_decide_eq_false_2 _ H1), (bool_decide_eq_false_2 _ H2).
    by rewrite (bool_decide_eq_false_2 _ H1).
Qed.
End StatementAlgebra.

(** ** The handlers, case by case *)

Section HandlerCases.
Implicit Types (s : SaveSoroswapPairsToSQLite) (d : DB) (f : Faults).

Lemma with_db_with_db s d1 d2 : with_db (with_db s d1) d2 = with_db s d2.
Proof. done. Qed.

Lemma db_with_db s d : db (with_db s d) = Some d.
Proof. done. Qed.

(** Every way [handleNewPair] can end. *)
Lemma handleNewPair_cases s (e : NewPairEvent.t) f :
  (∃ err, handleNewPair s e f = (s, Failure err)
          ∧ (err = ErrInvalidNewPair ∨ is_storage_error err = true))
  ∨ (db s = None ∧ valid_new_pair e = true ∧ handleNewPair s e f = (s, Panic))
  ∨ (∃ d, db s = Some d ∧ closed d = false ∧ valid_new_pair e = true
          ∧ handleNewPair s e f =
              (with_db s (mkDB (if pair_exists (NewPairEvent.PairAddress e) (rows d)
                                then rows d else rows d ++ [row_of e])
                               false (releases d)), Success)).
Proof.
  unfold handleNewPair. rewrite valid_new_pair_guard.
  destruct (valid_new_pair e) eqn:Hv; simpl; [| left; eauto].
  destruct (db s) as [d|] eqn:Hd; [| right; left; eauto].
  unfold BeginTx, step, Commit, finish, mbind, mret, fail, Result_bind, Result_ret.
  destruct (closed d) eqn:Hc; [left; eauto |].
  destruct (f OpBeginTx); [left; eauto |].
  destruct (f OpPrepare); [left; eauto |].
  destruct (f OpExec); [left; eauto |].
  rewrite (insert_pair_valid e (rows d) Hv).
  destruct (f OpRowsAffected); [left; eauto |].
  destruct (f OpCommit); [left; eauto |].
  right. right. exists d. repeat split; try done.
  by destruct (pair_exists _ (rows d)).
Qed.

(** Every way [handleSync] can end. *)
Lemma handleSync_cases s (e : SyncEvent.t) f :
  (∃ err, handleSync s e f = (s, Failure err) ∧ is_storage_error err = true)
  ∨ (db s = None ∧ handleSync s e f = (s, Panic))
  ∨ (∃ d, db s = Some d ∧ closed d = false
          ∧ handleSync s e f =
              (with_db s (mkDB (sync_rows e (rows d)) false (releases d)), Success)).
Proof.
  unfold handleSync.
  destruct (db s) as [d|] eqn:Hd; [| right; left; eauto].
  unfold BeginTx, step, Commit, finish, mbind, mret, fail, Result_bind, Result_ret.
  destruct (closed d) eqn:Hc; [left; eauto |].
  destruct (f OpBeginTx); [left; eauto |].
  destruct (f OpQuery); [left; eauto |].
  destruct (pair_exists _ (rows d)) eqn:Hex; simpl.
  - destruct (f OpPrepare); [left; eauto |].
    destruct (f OpExec); [left; eauto |].
    destruct (f OpRowsAffected); [left; eauto |].
    destruct (f OpCommit); [left; eauto |].
    right. right. exists d. by repeat split.
  - right. right. exists d. repeat split; try done.
    rewrite (sync_rows_absent e (rows d) Hex).
    pose proof (with_db_same s d Hd) as Hw. rewrite Hc in Hw. by rewrite Hw.
Qed.

(** [handleSync] when the handle is open and no storage call fails: the
    UPDATE applied to the rows. *)
Lemma handleSync_healthy_rows s d (e : SyncEvent.t) f :
  db s = Some d → closed d = false → healthy f = true →
  handleSync s e f =
    (with_db s (mkDB (sync_rows e (rows d)) false (releases d)), Success).
Proof.
  intros Hd Hc Hf. rewrite (handleSync_healthy s d e f Hd Hc Hf).
  fold (sync_rows e (rows d)). rewrite Hc.
  destruct (pair_exists _ (rows d)) eqn:Hex; [done |].
  rewrite (sync_rows_absent e (rows d) Hex).
  pose proof (with_db_same s d Hd) as Hw. rewrite Hc in Hw. by rewrite Hw.
Qed.
End HandlerCases.

(** ** Further properties of the handlers *)

Section HandlerProperties.
Implicit Types (s : SaveSoroswapPairsToSQLite) (d : DB) (f : Faults).

(** X1: handleNewPair never changes or removes a stored row, whatever the
    event and whatever the storage does: the rows before are a prefix of the
    rows after, and at most one row is added. *)
Theorem handleNewPair_keeps_rows s (e : NewPairEvent.t) f :
  table s `prefix_of` table (handleNewPair s e f).1
  ∧ (length (table (handleNewPair s e f).1) ≤ S (length (table s)))%nat.
Proof.
  destruct (handleNewPair_table s e f) as [-> | (_ & _ & ->)].
  - split; [done | lia].
  - split; [by apply prefix_app_r |]. rewrite length_app. simpl. lia.
Qed.

(** X2: handleSync never creates or removes a row and never writes
    pair_address, token_0, token_1 or created_at, whatever the event and
    whatever the storage does; a row whose address differs from the event's
    contract_id is left exactly as it was. *)
Theorem handleSync_keeps_immutable_columns s (e : SyncEvent.t) f :
  immutable_columns <$> table (handleSync s e f).1 = immutable_columns <$> table s
  ∧ length (table (handleSync s e f).1) = length (table s)
  ∧ ∀ (i : nat) (r : Pair),
      table s !! i = Some r → pair_address r ≠ SyncEvent.ContractID e →
      table (handleSync s e f).1 !! i = Some r.
Proof.
  destruct (handleSync_table s e f) as [-> | (_ & ->)]; [done |].
  fold (sync_rows e (table s)).
  split; [apply sync_rows_immutable |]. split.
  - unfold sync_rows, update_reserves. simpl. apply length_fmap.
  - intros i r Hi Hne. unfold sync_rows, update_reserves. simpl.
    rewrite list_lookup_fmap, Hi. simpl.
    by rewrite (bool_decide_eq_false_2 _ Hne).
Qed.

(** X3: the last sync wins.  On an open handle whose storage calls succeed,
    a sync followed by a second sync for the same contract_id leaves the
    consumer exactly as the second sync alone would: the ledger sequence and
    timestamp of the stored row are never compared with the event's, so an
    older event overwrites a newer one, and repeating an event changes
    nothing more. *)
Theorem handleSync_last_write_wins s (e1 e2 : SyncEvent.t) f1 f2 :
  is_open s = true → healthy f1 = true → healthy f2 = true →
  SyncEvent.ContractID e1 = SyncEvent.ContractID e2 →
  handleSync (handleSync s e1 f1).1 e2 f2 = handleSync s e2 f2.
Proof.
  intros Hopen Hf1 Hf2 Hid.
  destruct (is_open_db s Hopen) as (d & Hd & Hc).
  rewrite (handleSync_healthy_rows s d e1 f1 Hd Hc Hf1). simpl.
  rewrite (handleSync_healthy_rows
             (with_db s (mkDB (sync_rows e1 (rows d)) false (releases d)))
             (mkDB (sync_rows e1 (rows d)) false (releases d))
             e2 f2 eq_refl eq_refl Hf2).
  rewrite (handleSync_healthy_rows s d e2 f2 Hd Hc Hf2). simpl.
  by rewrite with_db_with_db, sync_rows_overwrite.
Qed.

(** X4: syncs of different pairs commute.  On an open handle whose storage
    calls succeed, two syncs with different contract_ids leave the same state
    in either order. *)
Theorem handleSync_commute s (e1 e2 : SyncEvent.t) f1 f2 f3 f4 :
  is_open s = true →
  healthy f1 = true → healthy f2 = true → healthy f3 = true → healthy f4 = true →
  SyncEvent.ContractID e1 ≠ SyncEvent.ContractID e2 →
  (handleSync (handleSync s e1 f1).1 e2 f2).1
  = (handleSync (handleSync s e2 f3).1 e1 f4).1.
Proof.
  intros Hopen Hf1 Hf2 Hf3 Hf4 Hne.
  destruct (is_open_db s Hopen) as (d & Hd & Hc).
  rewrite (handleSync_healthy_rows s d e1 f1 Hd Hc Hf1). simpl.
  rewrite (handleSync_healthy_rows
             (with_db s (mkDB (sync_rows e1 (rows d)) false (releases d)))
             (mkDB (sync_rows e1 (rows d)) false (releases d))
             e2 f2 eq_refl eq_refl Hf2).
  rewrite (handleSync_healthy_rows s d e2 f3 Hd Hc Hf3). simpl.
  rewrite (handleSync_healthy_rows
             (with_db s (mkDB (sync_rows e2 (rows d)) false (releases d)))
             (mkDB (sync_rows e2 (rows d)) false (releases d))
             e1 f4 eq_refl eq_refl Hf4). simpl.
  by rewrite !with_db_with_db, sync_rows_comm.
Qed.


(** X6: a new_pair event that is answered with success is stored or was
    stored before.  Whatever the storage does, if handleNewPair returns nil
    then the event was valid, the handle was open and still is, and the
    existence check that handleSync makes finds the address afterwards. *)
Theorem handleNewPair_success_present s (e : NewPairEvent.t) f :
  (handleNewPair s e f).2 = Success →
  valid_new_pair e = true
  ∧ is_open s = true
  ∧ is_open (handleNewPair s e f).1 = true
  ∧ pair_exists (NewPairEvent.PairAddress e) (table (handleNewPair s e f).1) = true.
Proof.
  destruct (handleNewPair_cases s e f)
    as [(err & -> & _) | [(_ & _ & ->) | (d & Hd & Hc & Hv & ->)]];
    simpl; try done.
  intros _. split; [done |]. split; [unfold is_open; by rewrite Hd, Hc |].
  split; [done |]. rewrite table_with_db. simpl.
  destruct (pair_exists _ (rows d)) eqn:Hex; [done |].
  apply pair_exists_elem. unfold addresses. rewrite fmap_app.
  apply elem_of_app. right. simpl. by apply list_elem_of_singleton.
Qed.

(** X7: Initialize is all or nothing for the handle.  It returns nil exactly
    when its four storage calls succeed, and then holds a new open handle on
    the database at the recorded path; when it fails the consumer keeps the
    handle it had (none, if it never had one).  A string under db_path is
    recorded as it is, the empty string included; name and version are never
    touched. *)
Theorem Initialize_all_or_nothing s (config : gmap string GoValue) env :
  ((Initialize s config env).2 = Success ↔ ∀ op, init_fault env op = false)
  ∧ ((Initialize s config env).2 = Success →
     db (Initialize s config env).1
     = Some (mkDB (existing env (dbPath (Initialize s config env).1)) false 0))
  ∧ ((Initialize s config env).2 ≠ Success →
     db (Initialize s config env).1 = db s)
  ∧ (∀ p, config !! "db_path" = Some (VString p) →
          dbPath (Initialize s config env).1 = p)
  ∧ name (Initialize s config env).1 = name s
  ∧ version (Initialize s config env).1 = version s.
Proof.
  unfold Initialize. destruct (assert_string (config !! "db_path")) as [p ok] eqn:Ha.
  destruct (init_fault env OpOpen) eqn:H1; [| destruct (init_fault env OpPing) eqn:H2;
    [| destruct (init_fault env OpPragmas) eqn:H3;
      [| destruct (init_fault env OpCreateTable) eqn:H4]]]; simpl.
  all: repeat split; try done.
  all: try (intros Hall; congruence).
  all: try (intros q Hq; rewrite Hq in Ha; simpl in Ha; by simplify_eq).
  intros _ []; done.
Qed.
End HandlerProperties.

(** ** Further properties of the dispatch *)

Section DispatchProperties.
Context `{JsonDecoder}.
Implicit Types (s : SaveSoroswapPairsToSQLite) (f : Faults) (msg : Message).

(** Every way [Process] can end. *)
Lemma Process_outcome_cases s msg f :
  (∃ err, Process s msg f = (s, Failure err))
  ∨ (db s = None ∧ Process s msg f = (s, Panic))
  ∨ (∃ d t, db s = Some d ∧ closed d = false
            ∧ Process s msg f = (with_db s (mkDB t false (releases d)), Success)).
Proof.
  destruct (Process_cases s msg f) as [[e He] | [[e ->] | [e ->]]].
  - left. eauto.
  - destruct (handleNewPair_cases s e f)
      as [(err & -> & _) | [(Hd & _ & ->) | (d & Hd & Hc & _ & ->)]]; eauto 10.
  - destruct (handleSync_cases s e f)
      as [(err & -> & _) | [(Hd & ->) | (d & Hd & Hc & ->)]]; eauto 10.
Qed.

Lemma Process_immutable_columns s msg f :
  (immutable_columns <$> table s)
    `prefix_of` (immutable_columns <$> table (Process s msg f).1).
Proof.
  destruct (Process_cases s msg f) as [[e ->] | [[e ->] | [e ->]]].
  - done.
  - destruct (handleNewPair_table s e f) as [-> | (_ & _ & ->)]; [done |].
    rewrite fmap_app. by apply prefix_app_r.
  - destruct (handleSync_table s e f) as [-> | (_ & ->)]; [done |].
    fold (sync_rows e (table s)). by rewrite sync_rows_immutable.
Qed.

Lemma Close_keeps_handle s fc :
  db s ≠ None → ∃ d, db (Close s fc).1 = Some d ∧ closed d = true.
Proof.
  unfold Close, sql_DB_Close. destruct (db s) as [d|]; [| done]. intros _.
  destruct (closed d) eqn:Hc; simpl; eauto.
Qed.

Lemma Process_fields s msg f :
  dbPath (Process s msg f).1 = dbPath s
  ∧ name (Process s msg f).1 = name s
  ∧ version (Process s msg f).1 = version s
  ∧ is_open (Process s msg f).1 = is_open s
  ∧ released (Process s msg f).1 = released s.
Proof.
  destruct (Process_outcome_cases s msg f)
    as [[err ->] | [[_ ->] | (d & t & Hd & Hc & ->)]]; try done.
  unfold is_open, released. simpl. by rewrite Hd, Hc.
Qed.

Lemma Close_fields s fc :
  name (Close s fc).1 = name s ∧ version (Close s fc).1 = version s.
Proof.
  unfold Close, sql_DB_Close. destruct (db s) as [d|]; [| done].
  by destruct (closed d).
Qed.

Lemma Initialize_fields s (config : gmap string GoValue) env :
  name (Initialize s config env).1 = name s
  ∧ version (Initialize s config env).1 = version s.
Proof.
  unfold Initialize. destruct (assert_string _) as [p ok].
  by repeat case_match.
Qed.

(** X8: in every state the consumer reaches, the primary key is unique and
    no stored row has an empty pair_address, token_0 or token_1. *)
Theorem reachable_rows_well_formed s :
  reachable s →
  NoDup (addresses (table s))
  ∧ ∀ r, r ∈ table s →
         pair_address r ≠ "" ∧ token_0 r ≠ "" ∧ token_1 r ≠ "".
Proof.
  intros Hreach. destruct (reachable_schema_ok s Hreach) as [Hnd Hck].
  split; [done |]. intros r Hr.
  rewrite Forall_forall in Hck. by apply check_constraints_nonempty, Hck.
Qed.

(** X9: what is stored about a pair at its creation stays.  Over every run
    of Process calls, from every state, with messages of any shape and
    whatever the storage does, the columns pair_address, token_0, token_1 and
    created_at of the rows present before are found unchanged, row for row,
    at the head of the table after. *)
Theorem Process_keeps_immutable_columns s calls :
  (immutable_columns <$> table s)
    `prefix_of` (immutable_columns <$> table (process_all s calls).1).
Proof.
  revert s. induction calls as [|[msg f] calls IH]; intros s; [done |].
  destruct (process_all_cons s msg f calls) as [-> | ->].
  - apply Process_immutable_columns.
  - etrans; [apply Process_immutable_columns | apply IH].
Qed.

(** X10: Process is all or nothing.  Whenever it does not return nil (an
    error of any kind, or a panic), the consumer and its table are exactly as
    before the call: a failed commit, a failed statement or a rejected
    message leaves no partial write. *)
Theorem Process_failure_leaves_state s msg f :
  (Process s msg f).2 ≠ Success → (Process s msg f).1 = s.
Proof.
  destruct (Process_outcome_cases s msg f)
    as [[err ->] | [[_ ->] | (d & t & _ & _ & ->)]]; simpl; done.
Qed.

(** X11: after Close a consumer that had a handle answers every message,
    well-formed or not, with an error and changes nothing: Close keeps the
    closed handle in place of clearing it, so the handlers fail at BeginTx
    and do not panic. *)
Theorem Process_after_Close_fails s fc msg f :
  db s ≠ None →
  ∃ err, Process (Close s fc).1 msg f = ((Close s fc).1, Failure err).
Proof.
  intros Hdb. destruct (Close_keeps_handle s fc Hdb) as (d & Hd & Hc).
  destruct (Process_outcome_cases (Close s fc).1 msg f)
    as [[err He] | [[Hnone _] | (d' & t & Hd' & Hc' & _)]].
  - eauto.
  - congruence.
  - rewrite Hd in Hd'. simplify_eq. congruence.
Qed.

(** X12: Process panics exactly when the consumer has no handle (Initialize
    was never called, or failed) and the message reaches the storage: its
    bytes decode to a sync event, or to a new_pair event that passes the
    validation.  With a handle, open or closed, it never panics. *)
Theorem Process_panics_iff s msg f :
  (Process s msg f).2 = Panic ↔
  db s = None
  ∧ ∃ data, Payload msg = VBytes data
      ∧ ((unmarshal_type data = inr "sync"
          ∧ ∃ e, unmarshal_SyncEvent data = inr e)
         ∨ (unmarshal_type data = inr "new_pair"
            ∧ ∃ e, unmarshal_NewPairEvent data = inr e ∧ valid_new_pair e = true)).
Proof.
  split.
  - unfold Process. destruct (Payload msg) as [|data| | | | |]; simpl; try done.
    destruct (unmarshal_type data) as [err | ty] eqn:Hty; [done |].
    case_bool_decide as Hnp; [subst ty |].
    + destruct (unmarshal_NewPairEvent data) as [err | e] eqn:He; [done |].
      destruct (handleNewPair_cases s e f)
        as [(err & -> & _) | [(Hd & Hv & ->) | (d & _ & _ & _ & ->)]];
        simpl; try done.
      intros _. split; [done |]. exists data. split; [done |]. right. eauto.
    + case_bool_decide as Hsy; [subst ty | done].
      destruct (unmarshal_SyncEvent data) as [err | e] eqn:He; [done |].
      destruct (handleSync_cases s e f)
        as [(err & -> & _) | [(Hd & ->) | (d & _ & _ & ->)]];
        simpl; try done.
      intros _. split; [done |]. exists data. split; [done |]. left. eauto.
  - intros (Hd & data & Hp & [(Hty & e & He) | (Hty & e & He & Hv)]);
      unfold Process; rewrite Hp; simpl; rewrite Hty; simpl; rewrite He.
    + unfold handleSync. by rewrite Hd.
    + unfold handleNewPair. by rewrite valid_new_pair_guard, Hv, Hd.
Qed.

(** X13: the identity of the plugin is constant.  In every state the
    consumer reaches, through any calls of Initialize, Process and Close,
    Name is SaveSoroswapPairsToSQLite, Version is 1.0.0 and Type is the
    consumer plugin type. *)
Theorem reachable_identity s :
  reachable s →
  Name s = "SaveSoroswapPairsToSQLite" ∧ Version s = "1.0.0"
  ∧ Type_ s = ConsumerPlugin.
Proof.
  unfold Name, Version, Type_.
  induction 1 as [| s config env _ IH _ | s msg f _ IH | s fc _ IH].
  - done.
  - destruct (Initialize_fields s config env) as [-> ->]. done.
  - destruct (Process_fields s msg f) as (_ & -> & -> & _). done.
  - destruct (Close_fields s fc) as [-> ->]. done.
Qed.

(** X14: Process writes rows and nothing else.  Whatever the message and
    whatever the storage does, the recorded path, the name, the version,
    whether the handle is open and how often it was released are after the
    call what they were before: Process never opens, closes or replaces the
    handle. *)
Theorem Process_preserves_handle s msg f :
  dbPath (Process s msg f).1 = dbPath s
  ∧ is_open (Process s msg f).1 = is_open s
  ∧ released (Process s msg f).1 = released s
  ∧ (db (Process s msg f).1 = None ↔ db s = None).
Proof.
  destruct (Process_fields s msg f) as (Hp & _ & _ & Ho & Hr).
  split; [done |]. split; [done |]. split; [done |].
  destruct (Process_outcome_cases s msg f)
    as [[err ->] | [[_ ->] | (d & t & Hd & _ & ->)]]; simpl; try done.
  by rewrite Hd.
Qed.
End DispatchProperties.

(** ** The further properties at concrete inputs *)

Lemma handleSync_last_write_wins_witness :
  SyncEvent.ContractID sync_event_P1 = SyncEvent.ContractID stale_sync_P1
  ∧ (SyncEvent.LedgerSequence stale_sync_P1 < SyncEvent.LedgerSequence sync_event_P1)%Z
  ∧ table (handleSync (handleSync holding_P1 sync_event_P1 NoFaults).1
                      stale_sync_P1 NoFaults).1
    = [mkPair "P1" "A" "B" "7" "9" (mkTime 1704067200 0 0)
              (Some (mkTime 1704067300 0 0)) (Some 41%Z)].
Proof.
  split; [reflexivity |]. split; [reflexivity |].
  rewrite (handleSync_last_write_wins holding_P1 sync_event_P1 stale_sync_P1
             NoFaults NoFaults eq_refl eq_refl eq_refl eq_refl).
  reflexivity.
Defined.

Lemma handleSync_commute_witness :
  SyncEvent.ContractID sync_event_P1 ≠ SyncEvent.ContractID sync_event_P2
  ∧ table (handleSync (handleSync holding_P1_P2 sync_event_P1 NoFaults).1
                      sync_event_P2 NoFaults).1
    = table (handleSync (handleSync holding_P1_P2 sync_event_P2 NoFaults).1
                        sync_event_P1 NoFaults).1.
Proof.
  assert (Hne : SyncEvent.ContractID sync_event_P1 ≠ SyncEvent.ContractID sync_event_P2)
    by discriminate.
  split; [exact Hne |].
  exact (f_equal table
           (handleSync_commute holding_P1_P2 sync_event_P1 sync_event_P2
              NoFaults NoFaults NoFaults NoFaults
              eq_refl eq_refl eq_refl eq_refl eq_refl Hne)).
Defined.


Lemma handleNewPair_success_present_witness :
  (handleNewPair holding_P1 event_P2 NoFaults).2 = Success
  ∧ pair_exists (NewPairEvent.PairAddress event_P2)
                (table (handleNewPair holding_P1 event_P2 NoFaults).1) = true.
Proof.
  split; [reflexivity |].
  destruct (handleNewPair_success_present holding_P1 event_P2 NoFaults eq_refl)
    as (_ & _ & _ & Hex).
  exact Hex.
Defined.

Lemma reachable_rows_well_formed_witness :
  NoDup (addresses (table holding_P1))
  ∧ ∀ r, r ∈ table holding_P1 →
         pair_address r ≠ "" ∧ token_0 r ≠ "" ∧ token_1 r ≠ "".
Proof.
  exact (@reachable_rows_well_formed Json.decoder holding_P1 reachable_holding_P1).
Defined.

Lemma Process_failure_leaves_state_witness :
  (@Process Json.decoder holding_P1 sync_P1 commit_fails).2
  = Failure (ErrCommit SqlDriver)
  ∧ (@Process Json.decoder holding_P1 sync_P1 commit_fails).1 = holding_P1.
Proof.
  split; [vm_compute; reflexivity |].
  apply (@Process_failure_leaves_state Json.decoder holding_P1 sync_P1 commit_fails).
  vm_compute. discriminate.
Defined.

Lemma Process_after_Close_fails_witness :
  db holding_P1 ≠ None
  ∧ ∃ err, @Process Json.decoder (Close holding_P1 NoFaults).1 new_pair_P1 NoFaults
           = ((Close holding_P1 NoFaults).1, Failure err).
Proof.
  assert (Hdb : db holding_P1 ≠ None) by discriminate.
  split; [exact Hdb |].
  exact (@Process_after_Close_fails Json.decoder holding_P1 NoFaults new_pair_P1
           NoFaults Hdb).
Defined.

(** Before [Initialize], and after a failed one, a well-formed event panics. *)
Example Process_panics_uninitialized :
  (@Process Json.decoder New new_pair_P1 NoFaults).2 = Panic
  ∧ (@Process Json.decoder
       (Initialize New ∅ (mkStorage (λ _, []) (λ op, match op with OpPing => true | _ => false end))).1
       sync_P1 NoFaults).2 = Panic.
Proof. split; vm_compute; reflexivity. Qed.

Lemma reachable_identity_witness :
  Name holding_P1 = "SaveSoroswapPairsToSQLite" ∧ Version holding_P1 = "1.0.0"
  ∧ Type_ holding_P1 = ConsumerPlugin.
Proof.
  exact (@reachable_identity Json.decoder holding_P1 reachable_holding_P1).
Defined.
